(** * bsky-hn-bot: the drip-feed run of [bot.ts], embedded and verified

    The program polls a feed of Hacker News stories, picks at most one story
    per run and posts it to Bluesky; a JSON state file holds the identifier of
    the last story dealt with.  This file embeds [bot.ts] function by
    function ([retryWithBackoff], [loadState], [saveState], [fetchRSSFeed],
    [postToBluesky], [main]) and proves the properties of a run: which story
    is chosen, when the state file is written and with what.  The older
    script kept in README.md differs in the last statements of [main]; it is
    embedded next to it.

    Conventions of the embedding.
    - JavaScript numbers that the program computes with are story identifiers
      (results of [parseInt]), millisecond time values of [Date]s and the
      configured hour limit; they are taken to be integers and are modelled
      by [Z].  Dates are valid ones.
    - Asynchronous code is sequential here: every [await] is awaited before
      the next statement runs, so a [Promise] is a computation in the monad
      [M] (environment, state, thrown value).
    - The network and the clock are the environment [Env]: it answers each
      call of the feed and of the posting service, and gives the time read by
      [new Date()] in [main].
    - The state file is kept up to JSON reading: what is stored is the value
      [JSON.parse] gives back, or the fact that it gives none.
    - [log] only writes to the console; it is left out, except for the
      reads of [state.lastStoryId] in its arguments, which throw on [null].
      [writeFileSync] is taken to succeed. *)

From Stdlib Require Import ZArith List Bool String Lia Permutation Sorted.
From stdpp Require Import base option gmap strings list.

Import ListNotations.
Local Open Scope string_scope.
Local Open Scope Z_scope.
Local Open Scope list_scope.
Local Set Warnings "-register-all".

(** ** Data *)

(** [interface Story]. [publishedAt] is the time value ([getTime()]) of the
    date, in milliseconds. *)
Record Story : Type := mkStory {
  id : Z;
  title : string;
  url : string;
  hnUrl : string;
  publishedAt : Z
}.

(** What [JSON.parse] returns: the declared type [BotState] is only an
    annotation, the value is whatever the file holds.  [JObj] lists the own
    properties in insertion order; numbers are the integers. *)
Inductive json : Type :=
| JNull
| JBool (b : bool)
| JNum (n : Z)
| JStr (s : string)
| JArr (items : list json)
| JObj (fields : list (string * json)).

(** The text of a file, up to JSON reading: a text that [JSON.parse]
    rejects, or the text of a JSON value. *)
Inductive file_text : Type :=
| NotJSON (raw : string)
| JSONText (v : json).

(** A thrown value: an [Error] (or subclass) with its message, or
    [undefined]. *)
Inductive thrown : Type :=
| ThrownError (message : string)
| ThrownUndefined.

(** The [config] object; [process.argv[2]] is kept with it. *)
Record Config : Type := mkConfig {
  minScore : Z;
  maxStoryAgeHours : Z;
  dryRun : bool;
  blueskyUsername : option string;
  blueskyPassword : option string;
  argv2 : option string
}.

(** What a run does to the outside, in order. *)
Inductive event : Type :=
| Slept (ms : Z)
| FeedRequested (ok : bool)
| Posted (s : Story)
| PostFailed (s : Story)
| Wrote (path : string) (content : file_text).

(** The environment of one run.  [feed minScore k] answers the [k]-th call
    of [fetchRSSFeed]: an error (request failed, status not ok, body not
    JSON), or the [stories] array as the loop over [jsonData.items] built it,
    before the sort.  [bluesky k s] answers the [k]-th call of the posting
    service (login, facet detection, post) for story [s]. [clock] is
    [now.getTime()]. *)
Record Env : Type := mkEnv {
  clock : Z;
  feed : Z -> nat -> thrown + list Story;
  bluesky : nat -> Story -> option thrown
}.

(** The state a run threads: the file system, the number of calls made to
    each service so far, and the trace. *)
Record St : Type := mkSt {
  files : gmap string file_text;
  feed_calls : nat;
  post_calls : nat;
  trace : list event
}.

Definition emit (e : event) (st : St) : St :=
  mkSt (files st) (feed_calls st) (post_calls st) (trace st ++ [e]).

Definition write_file (path : string) (content : file_text) (st : St) : St :=
  mkSt (<[path := content]> (files st)) (feed_calls st) (post_calls st)
       (trace st ++ [Wrote path content]).

(** ** The monad of effects *)

Definition M (A : Type) : Type := Env -> St -> (thrown + A) * St.

Definition ret {A} (a : A) : M A := fun _ st => (inr a, st).

Definition throw {A} (e : thrown) : M A := fun _ st => (inl e, st).

Definition bind {A B} (m : M A) (k : A -> M B) : M B :=
  fun env st =>
    match m env st with
    | (inr a, st') => k a env st'
    | (inl e, st') => (inl e, st')
    end.

Definition try_catch {A} (m : M A) (handler : thrown -> M A) : M A :=
  fun env st =>
    match m env st with
    | (inr a, st') => (inr a, st')
    | (inl e, st') => handler e env st'
    end.

Definition lift {A} (r : thrown + A) : M A := fun _ st => (r, st).

Notation "x <- m ;; k" := (bind m (fun x => k))
  (at level 100, m at next level, right associativity).
Notation "m ;;; k" := (bind m (fun _ => k))
  (at level 100, right associativity).

(** ** JavaScript primitives used by the program *)

(** [readFileSync(filepath, 'utf8')]: throws when the file cannot be read. *)
Definition readFileSync (filepath : string) : M file_text :=
  fun _ st =>
    match files st !! filepath with
    | Some t => (inr t, st)
    | None => (inl (ThrownError "ENOENT: no such file or directory"), st)
    end.

(** [JSON.parse]: a [SyntaxError] on a text that is not JSON. *)
Definition JSON_parse (t : file_text) : thrown + json :=
  match t with
  | NotJSON _ => inl (ThrownError "Unexpected token in JSON")
  | JSONText v => inr v
  end.

(** [JSON.stringify(state, null, 2)], up to JSON reading. *)
Definition JSON_stringify (v : json) : file_text := JSONText v.

(** [writeFileSync(filepath, text)]. *)
Definition writeFileSync (filepath : string) (t : file_text) : M unit :=
  fun _ st => (inr tt, write_file filepath t st).

(** [sleep(ms)]. *)
Definition sleep (ms : Z) : M unit :=
  fun _ st => (inr tt, emit (Slept ms) st).

Fixpoint assoc_get (k : string) (fields : list (string * json)) : option json :=
  match fields with
  | [] => None
  | (k', v) :: rest => if String.eqb k k' then Some v else assoc_get k rest
  end.

Fixpoint assoc_set (k : string) (v : json) (fields : list (string * json))
  : list (string * json) :=
  match fields with
  | [] => [(k, v)]
  | (k', v') :: rest =>
      if String.eqb k k' then (k, v) :: rest else (k', v') :: assoc_set k v rest
  end.

(** [state.lastStoryId] read: [None] is [undefined]; reading a property of
    [null] throws a [TypeError]; a primitive or an array has no such
    property. *)
Definition get_lastStoryId (state : json) : thrown + option json :=
  match state with
  | JNull => inl (ThrownError "Cannot read properties of null")
  | JObj fields => inr (assoc_get "lastStoryId" fields)
  | _ => inr None
  end.

(** [state.lastStoryId = v], as what [JSON.stringify] will then see of
    [state].  An array takes the property but does not serialise it; a
    primitive or [null] throws (module code is strict). *)
Definition set_lastStoryId (state : json) (v : json) : thrown + json :=
  match state with
  | JObj fields => inr (JObj (assoc_set "lastStoryId" v fields))
  | JArr items => inr (JArr items)
  | JNull => inl (ThrownError "Cannot set properties of null")
  | _ => inl (ThrownError "Cannot create property on a primitive")
  end.

(** [Math.max(...ids)]: [None] is [-Infinity], the value for no argument. *)
Definition Math_max (ids : list Z) : option Z :=
  fold_right (fun x acc => Some (match acc with Some m => Z.max x m | None => x end))
             None ids.

(** A number as [JSON.stringify] writes it: [-Infinity] becomes [null]. *)
Definition number_json (n : option Z) : json :=
  match n with
  | Some z => JNum z
  | None => JNull
  end.

(** [stories.sort((a, b) => a.id - b.id)]: the sort is stable, and a stable
    sort by a total preorder has one result; insertion from the right
    computes it. *)
Fixpoint insert_by_id (x : Story) (l : list Story) : list Story :=
  match l with
  | [] => [x]
  | y :: rest => if id x <=? id y then x :: y :: rest else y :: insert_by_id x rest
  end.

Definition sort_by_id (l : list Story) : list Story :=
  fold_right insert_by_id [] l.

(** ** The program *)

Section Program.

(** [id > v] for a value [v] that is a string, an array or an object: the
    comparison goes through [ToPrimitive] and the reading of a string as a
    number, which are not modelled; whatever they give is a parameter. *)
Variable gt_coerced : Z -> json -> bool.

(** [story.id > state.lastStoryId], [lastStoryId] being the value read
    ([None] for [undefined], which compares as [NaN]). *)
Definition gt_lastStoryId (story_id : Z) (lastStoryId : option json) : bool :=
  match lastStoryId with
  | None => false
  | Some JNull => 0 <? story_id
  | Some (JBool b) => (if b then 1 else 0) <? story_id
  | Some (JNum n) => n <? story_id
  | Some v => gt_coerced story_id v
  end.

(** [retryWithBackoff]: the loop from iteration [attempt] on, with
    [remaining] iterations left and [lastError] as assigned so far. *)
Fixpoint retry_from {T} (operation : M T) (maxAttempts : nat) (baseDelayMs : Z)
    (remaining attempt : nat) (lastError : thrown) : M T :=
  match remaining with
  | O => throw lastError
  | S remaining' =>
      try_catch operation
        (fun error =>
           (if (attempt <? maxAttempts)%nat
            then sleep (baseDelayMs * 2 ^ (Z.of_nat attempt - 1))
            else ret tt) ;;;
           retry_from operation maxAttempts baseDelayMs remaining' (S attempt) error)
  end.

Definition retryWithBackoff {T} (operation : M T) (maxAttempts : nat)
    (baseDelayMs : Z) : M T :=
  retry_from operation maxAttempts baseDelayMs maxAttempts 1%nat ThrownUndefined.

(** [loadState]. *)
Definition loadState (filepath : string) : M json :=
  try_catch
    (content <- readFileSync filepath ;;
     lift (JSON_parse content))
    (fun _ => ret (JObj [("lastStoryId", JNum 0)])).

(** [saveState]: the write, then the log line, which reads
    [state.lastStoryId] (and so throws on [null], the file being written
    by then). *)
Definition saveState (filepath : string) (state : json) : M unit :=
  writeFileSync filepath (JSON_stringify state) ;;;
  _ <- lift (get_lastStoryId state) ;;
  ret tt.

(** [fetchRSSFeed]. *)
Definition fetchRSSFeed (config : Config) : M (list Story) :=
  fun env st =>
    let st' := mkSt (files st) (S (feed_calls st)) (post_calls st) (trace st) in
    match feed env (minScore config) (feed_calls st) with
    | inl e => (inl e, emit (FeedRequested false) st')
    | inr stories => (inr (sort_by_id stories), emit (FeedRequested true) st')
    end.

(** A configured secret is usable when it is set and not empty. *)
Definition truthy (s : option string) : bool :=
  match s with
  | Some s => negb (String.eqb s EmptyString)
  | None => false
  end.

(** [postToBluesky]. *)
Definition postToBluesky (config : Config) (story : Story) : M unit :=
  if negb (truthy (blueskyUsername config)) || negb (truthy (blueskyPassword config))
  then throw (ThrownError "Bluesky credentials not configured")
  else
    fun env st =>
      let st' := mkSt (files st) (feed_calls st) (S (post_calls st)) (trace st) in
      match bluesky env (post_calls st) story with
      | Some e => (inl e, emit (PostFailed story) st')
      | None => (inr tt, emit (Posted story) st')
      end.

(** [process.argv[2] || 'last-processed.json']. *)
Definition stateFile (config : Config) : string :=
  match argv2 config with
  | Some p => if String.eqb p EmptyString then "last-processed.json" else p
  | None => "last-processed.json"
  end.

(** The two filters of [main]. *)
Definition newStories_of (lastStoryId : option json) (stories : list Story) : list Story :=
  List.filter (fun story => gt_lastStoryId (id story) lastStoryId) stories.

Definition freshStories_of (config : Config) (now : Z) (newStories : list Story)
  : list Story :=
  let maxAgeMs := maxStoryAgeHours config * 60 * 60 * 1000 in
  List.filter (fun story =>
                 let ageMs := now - publishedAt story in
                 if maxAgeMs <? ageMs then false else true)
              newStories.

(** The body of the [try] block of [main]. *)
Definition main_body (config : Config) : M unit :=
  let stateFile := stateFile config in
  state <- loadState stateFile ;;
  lastStoryId <- lift (get_lastStoryId state) ;;
  stories <- retryWithBackoff (fetchRSSFeed config) 3 1000 ;;
  let newStories := newStories_of lastStoryId stories in
  match newStories with
  | [] => ret tt
  | _ :: _ =>
      now <- (fun env st => (inr (clock env), st)) ;;
      let freshStories := freshStories_of config now newStories in
      match freshStories with
      | [] =>
          let latestId := Math_max (map id newStories) in
          state' <- lift (set_lastStoryId state (number_json latestId)) ;;
          saveState stateFile state'
      | storyToPost :: _ =>
          if dryRun config then ret tt
          else
            retryWithBackoff (postToBluesky config storyToPost) 3 2000 ;;;
            state' <- lift (set_lastStoryId state (JNum (id storyToPost))) ;;
            saveState stateFile state'
      end
  end.

(** The decision of [main] between the fetch and the effects (the two
    filters, the two tests on [length], [Math.max] and [freshStories[0]]),
    as a value: nothing to do, advance the cursor to [latestId] without
    posting, or post [storyToPost] and advance to its id. *)
Inductive SelectionResult : Type :=
| NoOp
| AdvanceOnly (latestId : option Z)
| PostAndAdvance (storyToPost : Story).

Definition select (config : Config) (lastStoryId : option json) (now : Z)
    (stories : list Story) : SelectionResult :=
  let newStories := newStories_of lastStoryId stories in
  match newStories with
  | [] => NoOp
  | _ :: _ =>
      match freshStories_of config now newStories with
      | [] => AdvanceOnly (Math_max (map id newStories))
      | storyToPost :: _ => PostAndAdvance storyToPost
      end
  end.

(** [main], with the process exit code: 1 from [process.exit(1)] in the
    [catch] (a thrown [undefined] has no [message]; the rejection it causes
    ends in the handler of [main().catch], which exits with 1 as well), 0
    when [main] returns. *)
Definition main (config : Config) (env : Env) (st : St) : Z * St :=
  match main_body config env st with
  | (inr _, st') => (0, st')
  | (inl (ThrownError _), st') => (1, st')
  | (inl ThrownUndefined, st') => (1, st')
  end.

(** One run of the program: a fresh process (no call made, empty trace)
    on the file system [fs]. *)
Definition start (fs : gmap string file_text) : St := mkSt fs 0 0 [].

Definition run (config : Config) (env : Env) (fs : gmap string file_text) : Z * St :=
  main config env (start fs).

(** Runs in sequence, each with its configuration and environment, on the
    file system the run before left; the file systems met, the first one
    included. *)
Fixpoint run_sequence (runs : list (Config * Env)) (fs : gmap string file_text)
  : list (gmap string file_text) :=
  match runs with
  | [] => [fs]
  | (config, env) :: rest => fs :: run_sequence rest (files (snd (run config env fs)))
  end.

(** The cursor a run loads from [filepath]: the [lastStoryId] of the loaded
    state when it is a number. *)
Definition loaded_cursor (filepath : string) (env : Env)
    (fs : gmap string file_text) : option Z :=
  match loadState filepath env (start fs) with
  | (inr state, _) =>
      match get_lastStoryId state with
      | inr (Some (JNum c)) => Some c
      | _ => None
      end
  | (inl _, _) => None
  end.

(** The stories a run gets from the fetch step, retries included. *)
Definition fetched (config : Config) (env : Env) (fs : gmap string file_text)
  : thrown + list Story :=
  fst (retryWithBackoff (fetchRSSFeed config) 3 1000 env (start fs)).

(** The state of a run when the fetch step is over. *)
Definition after_fetch (config : Config) (env : Env) (fs : gmap string file_text)
  : St :=
  snd (retryWithBackoff (fetchRSSFeed config) 3 1000 env (start fs)).

(** *** The script kept in README.md

    The older script (RSS front page, posting over plain HTTP) has the same
    [main] up to the choice of [storyToPost]; after it, the state is updated
    and saved outside the [if (config.dryRun)]. *)
Definition readme_main_body (config : Config) : M unit :=
  let stateFile := stateFile config in
  state <- loadState stateFile ;;
  lastStoryId <- lift (get_lastStoryId state) ;;
  stories <- retryWithBackoff (fetchRSSFeed config) 3 1000 ;;
  let newStories := newStories_of lastStoryId stories in
  match newStories with
  | [] => ret tt
  | _ :: _ =>
      now <- (fun env st => (inr (clock env), st)) ;;
      let freshStories := freshStories_of config now newStories in
      match freshStories with
      | [] =>
          let latestId := Math_max (map id newStories) in
          state' <- lift (set_lastStoryId state (number_json latestId)) ;;
          saveState stateFile state'
      | storyToPost :: _ =>
          (if dryRun config then ret tt
           else retryWithBackoff (postToBluesky config storyToPost) 3 2000) ;;;
          state' <- lift (set_lastStoryId state (JNum (id storyToPost))) ;;
          saveState stateFile state'
      end
  end.

Definition readme_main (config : Config) (env : Env) (st : St) : Z * St :=
  match readme_main_body config env st with
  | (inr _, st') => (0, st')
  | (inl _, st') => (1, st')
  end.

End Program.

(** Observations on a trace. *)
Definition is_write (e : event) : bool :=
  match e with Wrote _ _ => true | _ => false end.

Definition is_post_call (e : event) : bool :=
  match e with Posted _ | PostFailed _ => true | _ => false end.

Definition writes (tr : list event) : list event := List.filter is_write tr.

Definition post_calls_of (tr : list event) : list event := List.filter is_post_call tr.

(** ** Definitions used to state the properties *)

(** Stories in the order of their ids. *)
Definition id_le (a b : Story) : Prop := id a <= id b.

(** Events that touch neither the state file nor the posting service. *)
Definition quiet (evs : list event) : Prop := writes evs = [] /\ post_calls_of evs = [].

(** What is left of [main] once the stories are there. *)
Definition after_selection (config : Config) (state : json)
    (sel : SelectionResult) : M unit :=
  match sel with
  | NoOp => ret tt
  | AdvanceOnly latestId =>
      state' <- lift (set_lastStoryId state (number_json latestId)) ;;
      saveState (stateFile config) state'
  | PostAndAdvance storyToPost =>
      if dryRun config then ret tt
      else
        retryWithBackoff (postToBluesky config storyToPost) 3 2000 ;;;
        state' <- lift (set_lastStoryId state (JNum (id storyToPost))) ;;
        saveState (stateFile config) state'
  end.

(** *** Duplicate ids *)

(** A deduplication keeping for each id its first entry.  The program has
    no deduplication step. *)
Fixpoint dedupe (l : list Story) : list Story :=
  match l with
  | [] => []
  | x :: rest => x :: List.filter (fun y => negb (id y =? id x)) (dedupe rest)
  end.

(** The same, keeping for each id its last entry. *)
Fixpoint dedupe_last (l : list Story) : list Story :=
  match l with
  | [] => []
  | x :: rest =>
      if existsb (fun y => id y =? id x) rest then dedupe_last rest
      else x :: dedupe_last rest
  end.

(** The test of the freshness filter of [main]. *)
Definition within_age_limit (config : Config) (now : Z) (story : Story) : bool :=
  let maxAgeMs := maxStoryAgeHours config * 60 * 60 * 1000 in
  let ageMs := now - publishedAt story in
  if maxAgeMs <? ageMs then false else true.

(** A deduplication that keeps, for each id, its first entry that passes
    [keep], or its last entry when none does. *)
Fixpoint dedupe_keeping (keep : Story -> bool) (l : list Story) : list Story :=
  match l with
  | [] => []
  | x :: rest =>
      if keep x
      then x :: List.filter (fun y => negb (id y =? id x)) (dedupe_keeping keep rest)
      else if existsb (fun y => id y =? id x) rest then dedupe_keeping keep rest
      else x :: dedupe_keeping keep rest
  end.

(** [l'] is [l] with the duplicate-id entries removed, whichever entry of
    an id is kept: entries of [l] in their order, one per id, every id of
    [l] kept. *)
Definition duplicates_removed (l l' : list Story) : Prop :=
  sublist l' l /\
  List.NoDup (map id l') /\
  forall s, In s l -> exists s', In s' l' /\ id s' = id s.

(** The environment [env] with a feed that answers [stories] at every
    call. *)
Definition answering (env : Env) (stories : list Story) : Env :=
  mkEnv (clock env) (fun _ _ => inr stories) (bluesky env).

(** The outcome of a selection as the spec compares it: whether to post,
    the id chosen, the new cursor. *)
Inductive Decision : Type :=
| DNoOp
| DAdvance (latestId : option Z)
| DPost (story_id : Z).

Definition decision_of (r : SelectionResult) : Decision :=
  match r with
  | NoOp => DNoOp
  | AdvanceOnly latestId => DAdvance latestId
  | PostAndAdvance story => DPost (id story)
  end.

(** Two candidate lists with the same pairs of id and publication time. *)
Definition same_keys (l l' : list Story) : Prop :=
  forall i t,
    (exists s, In s l /\ id s = i /\ publishedAt s = t)
    <-> (exists s, In s l' /\ id s = i /\ publishedAt s = t).

(** The stories that count for the selection, for the cursor [c] at the
    time [now]. *)
Section KeyDefinitions.

Variable config : Config.
Variable c now : Z.

Definition is_new (s : Story) : Prop := c < id s.

Definition is_fresh (s : Story) : Prop :=
  now - publishedAt s <= maxStoryAgeHours config * 60 * 60 * 1000.

Definition has_new (L : list Story) : Prop := exists s, In s L /\ is_new s.

Definition has_fresh (L : list Story) : Prop :=
  exists s, In s L /\ is_new s /\ is_fresh s.

Definition greatest_new (L : list Story) (m : Z) : Prop :=
  (exists s, In s L /\ is_new s /\ id s = m) /\
  (forall s, In s L -> is_new s -> id s <= m).

Definition least_fresh (L : list Story) (i : Z) : Prop :=
  (exists s, In s L /\ is_new s /\ is_fresh s /\ id s = i) /\
  (forall s, In s L -> is_new s -> is_fresh s -> i <= id s).

(** Each story of [L] has a story of [L'] with its id and publication
    time. *)
Definition covered (L L' : list Story) : Prop :=
  forall s, In s L -> exists s', In s' L' /\ id s' = id s /\ publishedAt s' = publishedAt s.

End KeyDefinitions.

(** *** Concrete runs *)

Definition hour : Z := 3600000.

(** The clock of the concrete runs. *)
Definition demo_now : Z := 1000 * hour.

Definition demo_config (dry : bool) : Config :=
  mkConfig 100 48 dry (Some "hn-bot.example") (Some "app-password") None.

Definition demo_story (i : Z) (age_hours : Z) : Story :=
  mkStory i "A story" "https://example.com/article"
          "https://news.ycombinator.com/item" (demo_now - age_hours * hour).

(** A file system with the state file holding the cursor [c]. *)
Definition demo_files (c : Z) : gmap string file_text :=
  {[ "last-processed.json" := JSONText (JObj [("lastStoryId", JNum c)]) ]}.

(** A feed that answers [stories] at once; a posting service that accepts
    ([posting_up]) or refuses ([posting_down]) every call. *)
Definition demo_env (stories : list Story) (posting : nat -> Story -> option thrown) : Env :=
  mkEnv demo_now (fun _ _ => inr stories) posting.

Definition posting_up : nat -> Story -> option thrown := fun _ _ => None.

Definition posting_down : nat -> Story -> option thrown :=
  fun _ _ => Some (ThrownError "Bluesky post failed").

(** Comparisons with a cursor that is not a number do not arise in the
    concrete runs. *)
Definition no_coercion : Z -> json -> bool := fun _ _ => false.

Definition fresh_three : list Story :=
  [demo_story 105 1; demo_story 102 2; demo_story 108 1].

Definition stale_two : list Story := [demo_story 101 100; demo_story 102 90].

(** Three runs on one state file: a stale backlog, then two fresh stories,
    then the same feed again. *)
Definition three_runs : list (Config * Env) :=
  [(demo_config false, demo_env stale_two posting_up);
   (demo_config false, demo_env [demo_story 104 1; demo_story 103 1] posting_up);
   (demo_config true, demo_env [demo_story 104 1; demo_story 103 1] posting_up)].

(** Two entries of id 101 that differ in title only, and one of id 103. *)
Definition with_repeated_entry : list Story :=
  [demo_story 103 1;
   demo_story 101 2;
   mkStory 101 "The same story" "https://example.com/article"
           "https://news.ycombinator.com/item" (demo_now - 2 * hour)].

(** Three entries of id 101, the second one fresh, the others stale. *)
Definition fresh_between_stale : list Story :=
  [demo_story 101 100; demo_story 101 1; demo_story 101 90].

(** A story of one hour, and one published exactly 48 hours before the
    clock of the concrete runs. *)
Definition fresh_and_boundary : list Story := [demo_story 105 1; demo_story 101 48].

(** A feed that fails at its first [k] calls and answers [stories] from
    then on. *)
Definition feed_error (k : nat) : thrown :=
  ThrownError "JSON feed fetch failed: 503 Service Unavailable".

Definition demo_env_feed_up_at (k : nat) (stories : list Story) : Env :=
  mkEnv demo_now
        (fun _ j => if (j <? k)%nat then inl (feed_error j) else inr stories)
        posting_up.

(** A feed that fails at every call. *)
Definition demo_env_feed_down : Env :=
  mkEnv demo_now (fun _ j => inl (feed_error j)) posting_up.

(** A state file with a property besides the cursor. *)
Definition demo_files_with_note (c : Z) : gmap string file_text :=
  {[ "last-processed.json" :=
       JSONText (JObj [("note", JStr "kept"); ("lastStoryId", JNum c)]) ]}.

(** A configuration with no user name. *)
Definition demo_config_no_user : Config :=
  mkConfig 100 48 false None (Some "app-password") None.

(** Three runs outside dry-run on the same feed. *)
Definition drip_runs : list (Config * Env) :=
  [(demo_config false, demo_env fresh_three posting_up);
   (demo_config false, demo_env fresh_three posting_up);
   (demo_config false, demo_env fresh_three posting_up)].

(** ** The text of a post and its link facet

    The part of [postToBluesky] that builds the text and the facet for the
    words "Discuss on HN" (the login, the facets the library detects and
    the post itself are the posting service of [Env]). *)

(** A JavaScript string is its sequence of UTF-16 code units.  A [string]
    of the model stands for the JavaScript string whose code units are the
    codes of its characters. *)
Definition units (s : string) : list Z :=
  map (fun a => Z.of_nat (Ascii.nat_of_ascii a)) (list_ascii_of_string s).

Definition is_high_surrogate (u : Z) : bool := (0xD800 <=? u) && (u <=? 0xDBFF).

Definition is_low_surrogate (u : Z) : bool := (0xDC00 <=? u) && (u <=? 0xDFFF).

(** The UTF-8 bytes of a code point. *)
Definition utf8_of_code_point (c : Z) : list Z :=
  if c <? 0x80 then [c]
  else if c <? 0x800 then [0xC0 + c / 64; 0x80 + c mod 64]
  else if c <? 0x10000 then
    [0xE0 + c / 4096; 0x80 + (c / 64) mod 64; 0x80 + c mod 64]
  else
    [0xF0 + c / 262144; 0x80 + (c / 4096) mod 64; 0x80 + (c / 64) mod 64;
     0x80 + c mod 64].

(** [new TextEncoder().encode(s)]: a surrogate pair is one code point, a
    surrogate on its own is encoded as U+FFFD. *)
Fixpoint TextEncoder_encode (s : list Z) : list Z :=
  match s with
  | [] => []
  | u :: rest =>
      if is_high_surrogate u then
        match rest with
        | v :: rest' =>
            if is_low_surrogate v
            then utf8_of_code_point (0x10000 + (u - 0xD800) * 1024 + (v - 0xDC00))
                 ++ TextEncoder_encode rest'
            else utf8_of_code_point 0xFFFD ++ TextEncoder_encode rest
        | [] => utf8_of_code_point 0xFFFD
        end
      else if is_low_surrogate u then utf8_of_code_point 0xFFFD ++ TextEncoder_encode rest
      else utf8_of_code_point u ++ TextEncoder_encode rest
  end.

(** Whether [pat] is found at the start of [s]. *)
Fixpoint starts_with (pat s : list Z) : bool :=
  match pat, s with
  | [], _ => true
  | _ :: _, [] => false
  | p :: pat', c :: s' => (p =? c) && starts_with pat' s'
  end.

(** The greatest index, counted from [i], at which [pat] is found in [s];
    [best] when there is none. *)
Fixpoint last_match (s pat : list Z) (i best : Z) : Z :=
  let best' := if starts_with pat s then i else best in
  match s with
  | [] => best'
  | _ :: rest => last_match rest pat (i + 1) best'
  end.

(** [s.lastIndexOf(pat)]. *)
Definition lastIndexOf (s pat : list Z) : Z := last_match s pat 0 (-1).

(** [s.slice(0, e)]. *)
Definition slice0 (s : list Z) (e : Z) : list Z :=
  let len := Z.of_nat (length s) in
  firstn (Z.to_nat (if e <? 0 then Z.max (len + e) 0 else Z.min e len)) s.

(** A link facet: a range of bytes of the encoded text and the address it
    links to. *)
Record Facet : Type := mkFacet {
  byteStart : Z;
  byteEnd : Z;
  uri : string
}.

Definition discussText : list Z := units "Discuss on HN".

(** [postText], for a title and a url given by their code units.  The
    three marks before the title, the url and the label are the characters
    the source file holds there. *)
Definition postText_of (title_units url_units : list Z) : list Z :=
  [0xF0; 0x178; 0x201C; 0xB0; 0x20] ++ title_units
  ++ [0x0A; 0x0A; 0xF0; 0x178; 0x201D; 0x2014; 0x20] ++ url_units
  ++ [0x0A; 0x0A; 0xF0; 0x178; 0x2019; 0xAC; 0x20] ++ units "Discuss on HN".

Definition postText (story : Story) : list Z :=
  postText_of (units (title story)) (units (url story)).

(** The facet pushed for the discussion link, from the text and the
    address. *)
Definition discuss_facet_of (postText : list Z) (hnUrl : string) : Facet :=
  let discussStart := lastIndexOf postText discussText in
  let discussEnd := discussStart + Z.of_nat (length discussText) in
  let beforeDiscuss := slice0 postText discussStart in
  let byteStart := Z.of_nat (length (TextEncoder_encode beforeDiscuss)) in
  let byteEnd := Z.of_nat (length (TextEncoder_encode (slice0 postText discussEnd))) in
  mkFacet byteStart byteEnd hnUrl.

Definition discuss_facet (story : Story) : Facet :=
  discuss_facet_of (postText story) (hnUrl story).

(** *** Further observations on a run *)

(** The delays slept, the stories posted and the outcomes of the feed
    requests, in order. *)
Definition slept (tr : list event) : list Z :=
  flat_map (fun e => match e with Slept ms => [ms] | _ => [] end) tr.

Definition posted (tr : list event) : list Story :=
  flat_map (fun e => match e with Posted s => [s] | _ => [] end) tr.

Definition feed_requests (tr : list event) : list bool :=
  flat_map (fun e => match e with FeedRequested ok => [ok] | _ => [] end) tr.

(** The exit code for an outcome of the body of [main]. *)
Definition exit_with (r : (thrown + unit) * St) : Z * St :=
  match r with
  | (inr _, st) => (0, st)
  | (inl _, st) => (1, st)
  end.

(** The value [loadState] returns in a run. *)
Definition loaded_state (filepath : string) (env : Env) (fs : gmap string file_text)
  : thrown + json :=
  fst (loadState filepath env (start fs)).

(** The stories posted along a sequence of runs. *)
Fixpoint posted_in_sequence (gt_coerced : Z -> json -> bool)
    (runs : list (Config * Env)) (fs : gmap string file_text) : list Story :=
  match runs with
  | [] => []
  | (config, env) :: rest =>
      posted (trace (snd (run gt_coerced config env fs)))
      ++ posted_in_sequence gt_coerced rest (files (snd (run gt_coerced config env fs)))
  end.

(** ** Facts on the sort *)

Lemma insert_by_id_perm x l : Permutation (insert_by_id x l) (x :: l).
Proof.
  induction l as [|y l IH]; simpl; [reflexivity|].
  destruct (id x <=? id y); [reflexivity|].
  rewrite IH. apply perm_swap.
Qed.

Lemma sort_by_id_perm l : Permutation (sort_by_id l) l.
Proof.
  induction l as [|x l IH]; simpl; [constructor|].
  rewrite insert_by_id_perm. now constructor.
Qed.

Lemma sort_by_id_In x l : In x (sort_by_id l) <-> In x l.
Proof.
  split; apply Permutation_in; [|symmetry]; apply sort_by_id_perm.
Qed.

Lemma insert_by_id_sorted x l :
  StronglySorted id_le l -> StronglySorted id_le (insert_by_id x l).
Proof.
  induction 1 as [|y l Hl IH Hy]; simpl.
  - repeat constructor.
  - destruct (Z.leb_spec (id x) (id y)) as [Hxy|Hxy].
    + constructor; [now constructor|].
      constructor; [exact Hxy|].
      eapply List.Forall_impl; [|exact Hy]. unfold id_le. intros; lia.
    + constructor; [exact IH|].
      eapply Permutation_Forall; [symmetry; apply insert_by_id_perm|].
      constructor; [unfold id_le; lia | exact Hy].
Qed.

Lemma sort_by_id_sorted l : StronglySorted id_le (sort_by_id l).
Proof.
  induction l as [|x l IH]; simpl; [constructor|].
  now apply insert_by_id_sorted.
Qed.

(** The sort is stable: stories of one id keep their order. *)
Lemma insert_by_id_stable k x l :
  List.filter (fun s => id s =? k) (insert_by_id x l)
  = List.filter (fun s => id s =? k) (x :: l).
Proof.
  induction l as [|y l IH]; [reflexivity|].
  cbn [insert_by_id]. destruct (Z.leb_spec (id x) (id y)) as [Hxy|Hxy]; [reflexivity|].
  cbn [List.filter] in *. rewrite IH.
  destruct (Z.eqb_spec (id x) k), (Z.eqb_spec (id y) k); try reflexivity; lia.
Qed.

Lemma sort_by_id_stable k l :
  List.filter (fun s => id s =? k) (sort_by_id l)
  = List.filter (fun s => id s =? k) l.
Proof.
  induction l as [|x l IH]; [reflexivity|].
  cbn [sort_by_id fold_right]. fold (sort_by_id l).
  rewrite insert_by_id_stable. cbn [List.filter]. now rewrite IH.
Qed.

Lemma filter_sorted (f : Story -> bool) l :
  StronglySorted id_le l -> StronglySorted id_le (List.filter f l).
Proof.
  induction 1 as [|y l Hl IH Hy]; simpl; [constructor|].
  destruct (f y); [|exact IH].
  constructor; [exact IH|].
  rewrite List.Forall_forall in *. intros z Hz. apply Hy.
  now apply filter_In in Hz.
Qed.

Lemma sorted_head_least x l :
  StronglySorted id_le (x :: l) -> forall y, In y (x :: l) -> id x <= id y.
Proof.
  intros H y [<-|Hy]; [lia|].
  apply StronglySorted_inv in H as [_ H].
  rewrite List.Forall_forall in H. now apply H.
Qed.

(** The sort as the result of [Array.prototype.sort]: a sorted list is
    fixed by the order of the stories of each id, so a stable sort by id
    has one possible result, and [sort_by_id] is it. *)
Lemma stable_sorted_unique l1 l2 :
  StronglySorted id_le l1 -> StronglySorted id_le l2 ->
  (forall k, List.filter (fun s => id s =? k) l1 = List.filter (fun s => id s =? k) l2) ->
  l1 = l2.
Proof.
  intros H1. revert l2. induction H1 as [|x r1 Hr1 IH Hx]; intros l2 H2 H.
  - destruct l2 as [|y r2]; [reflexivity|].
    specialize (H (id y)). simpl in H. rewrite Z.eqb_refl in H. discriminate.
  - destruct l2 as [|y r2].
    { specialize (H (id x)). simpl in H. rewrite Z.eqb_refl in H. discriminate. }
    assert (id x = id y) as Hxy.
    { pose proof (H (id x)) as Hkx. pose proof (H (id y)) as Hky.
      simpl in Hkx, Hky. rewrite Z.eqb_refl in Hkx, Hky.
      destruct (Z.eqb_spec (id y) (id x)) as [|Hne]; [congruence|].
      destruct (Z.eqb_spec (id x) (id y)) as [|_]; [congruence|].
      assert (In x r2) as Hin2.
      { apply (proj1 (filter_In (fun s => id s =? id x) x r2)). rewrite <- Hkx. now left. }
      assert (In y r1) as Hin1.
      { apply (proj1 (filter_In (fun s => id s =? id y) y r1)). rewrite Hky. now left. }
      apply StronglySorted_inv in H2 as [_ Hy].
      rewrite List.Forall_forall in Hx, Hy.
      specialize (Hx y Hin1). specialize (Hy x Hin2). unfold id_le in *. lia. }
    pose proof (H (id x)) as Hk. simpl in Hk.
    rewrite Z.eqb_refl, <- Hxy, Z.eqb_refl in Hk. injection Hk as <- Hk.
    f_equal. apply IH; [now apply StronglySorted_inv in H2|].
    intros k. destruct (Z.eq_dec k (id x)) as [->|Hne]; [exact Hk|].
    specialize (H k). simpl in H.
    destruct (Z.eqb_spec (id x) k); [congruence | exact H].
Qed.

Lemma sort_by_id_unique l l' :
  StronglySorted id_le l' ->
  (forall k, List.filter (fun s => id s =? k) l' = List.filter (fun s => id s =? k) l) ->
  l' = sort_by_id l.
Proof.
  intros Hs H. apply stable_sorted_unique; [assumption | apply sort_by_id_sorted|].
  intros k. now rewrite H, sort_by_id_stable.
Qed.

(** ** Facts on the primitives *)

Lemma Math_max_In l m : Math_max l = Some m -> In m l.
Proof.
  revert m. induction l as [|x l IH]; intros m; simpl; [discriminate|].
  fold (Math_max l). destruct (Math_max l) as [m'|]; intros [= <-]; [|now left].
  destruct (Z.max_spec x m') as [[_ ->]|[_ ->]]; [right; now apply IH | now left].
Qed.

Lemma Math_max_upper l m : Math_max l = Some m -> forall x, In x l -> x <= m.
Proof.
  revert m. induction l as [|x l IH]; intros m; simpl; [discriminate|].
  fold (Math_max l). destruct (Math_max l) as [m'|] eqn:Hm; intros [= <-] y [<-|Hy]; try lia.
  - specialize (IH _ eq_refl y Hy). lia.
  - destruct l; [destruct Hy | discriminate].
Qed.

Lemma Math_max_some x l : exists m, Math_max (x :: l) = Some m.
Proof. simpl. eauto. Qed.

Lemma assoc_get_set k v fields : assoc_get k (assoc_set k v fields) = Some v.
Proof.
  induction fields as [|[k' v'] fields IH]; simpl.
  - now rewrite String.eqb_refl.
  - destruct (String.eqb k k') eqn:E; simpl; [now rewrite String.eqb_refl | now rewrite E].
Qed.

(** [loadState] never throws and touches nothing: it returns the value the
    file holds when the file is there and is JSON, and the initial state
    otherwise. *)
(** After the assignment of [lastStoryId] the log line of [saveState]
    reads it back: the save returns. *)
Lemma saveState_after_set state v state' filepath env st :
  set_lastStoryId state v = inr state' ->
  saveState filepath state' env st = (inr tt, write_file filepath (JSONText state') st).
Proof.
  destruct state; simpl; intros [= <-]; reflexivity.
Qed.

Lemma loadState_eq filepath env st :
  loadState filepath env st
  = (inr match files st !! filepath with
         | Some (JSONText v) => v
         | _ => JObj [("lastStoryId", JNum 0)]
         end, st).
Proof.
  unfold loadState, try_catch, bind, readFileSync, lift, ret.
  destruct (files st !! filepath) as [[raw|v]|]; reflexivity.
Qed.

Lemma loaded_cursor_eq filepath env fs :
  loaded_cursor filepath env fs
  = match get_lastStoryId match fs !! filepath with
                          | Some (JSONText v) => v
                          | _ => JObj [("lastStoryId", JNum 0)]
                          end with
    | inr (Some (JNum c)) => Some c
    | _ => None
    end.
Proof. unfold loaded_cursor. now rewrite loadState_eq. Qed.

(** A state whose [lastStoryId] is a number is an object, and assigning
    the property keeps it one. *)
Lemma get_lastStoryId_number state c :
  get_lastStoryId state = inr (Some (JNum c)) ->
  exists fields, state = JObj fields /\ assoc_get "lastStoryId" fields = Some (JNum c).
Proof.
  destruct state; simpl; try discriminate. intros [= H]. eauto.
Qed.

(** ** Facts on the two retried steps *)

Ltac unfold_retry :=
  unfold retryWithBackoff, retry_from, try_catch, bind, sleep, ret, throw, emit;
  cbn [Nat.ltb Nat.leb Z.of_nat].

Ltac trace_ext :=
  cbn [trace files post_calls feed_calls];
  rewrite <- ?app_assoc; cbn [app];
  eexists; split; [reflexivity|].

(** The fetch step leaves the files alone, makes no post, and what it
    returns is sorted by [fetchRSSFeed]. *)
Lemma fetch_step_frame config env st r st' :
  retryWithBackoff (fetchRSSFeed config) 3 1000 env st = (r, st') ->
  files st' = files st /\ post_calls st' = post_calls st /\
  (exists evs, trace st' = trace st ++ evs /\ quiet evs) /\
  (forall stories, r = inr stories -> exists raw, stories = sort_by_id raw).
Proof.
  unfold_retry. unfold fetchRSSFeed, emit. cbn [feed_calls files post_calls trace].
  repeat match goal with
         | |- context [feed ?e ?m ?k] => destruct (feed e m k); cbn
         end;
    intros [= <- <-]; repeat split; try reflexivity;
    try (trace_ext; now split); intros ? [=]; subst; eauto.
Qed.

Ltac post_events :=
  repeat first
    [ apply List.Forall_nil
    | apply List.Forall_cons;
      [ solve [ left; reflexivity | right; left; reflexivity | right; right; eauto ] | ] ].

(** The post step leaves the files alone; it returns normally exactly
    when one call of the service succeeded, and every call it makes is for
    the story given. *)
Lemma post_step_frame config story env st r st' :
  retryWithBackoff (postToBluesky config story) 3 2000 env st = (r, st') ->
  files st' = files st /\
  exists evs, trace st' = trace st ++ evs /\ writes evs = [] /\
    Forall (fun e => e = Posted story \/ e = PostFailed story \/ exists ms, e = Slept ms) evs /\
    match r with
    | inr _ => In (Posted story) evs
    | inl _ => ~ In (Posted story) evs
    end.
Proof.
  unfold_retry. unfold postToBluesky, throw, emit.
  destruct (negb (truthy (blueskyUsername config)) || negb (truthy (blueskyPassword config))).
  - cbn. intros [= <- <-]. split; [reflexivity|]. trace_ext.
    split; [reflexivity|]. split; [post_events|].
    cbn. intuition discriminate.
  - cbn [feed_calls files post_calls trace].
    repeat match goal with
           | |- context [bluesky ?e ?k ?s] => destruct (bluesky e k s); cbn
           end;
      intros [= <- <-]; (split; [reflexivity|]); trace_ext;
      (split; [reflexivity|]); (split; [post_events|]);
      cbn; intuition discriminate.
Qed.

(** When the service refuses the three calls, the post step throws. *)
Lemma post_step_fails config story env st :
  (forall k, (k < 3)%nat -> bluesky env (post_calls st + k)%nat story <> None) ->
  exists e, fst (retryWithBackoff (postToBluesky config story) 3 2000 env st) = inl e.
Proof.
  intros H.
  pose proof (H 0%nat ltac:(lia)) as H0.
  pose proof (H 1%nat ltac:(lia)) as H1.
  pose proof (H 2%nat ltac:(lia)) as H2.
  replace (post_calls st + 0)%nat with (post_calls st) in H0 by lia.
  replace (post_calls st + 1)%nat with (S (post_calls st)) in H1 by lia.
  replace (post_calls st + 2)%nat with (S (S (post_calls st))) in H2 by lia.
  unfold_retry. unfold postToBluesky, throw, emit.
  destruct (negb (truthy (blueskyUsername config)) || negb (truthy (blueskyPassword config)));
    [cbn; eauto|].
  cbn [feed_calls files post_calls trace].
  repeat match goal with
         | |- context [bluesky ?e ?k ?s] => destruct (bluesky e k s); cbn
         end; try congruence; eauto.
Qed.

(** With both credentials set, the post step starts with a call of the
    service for the story given, and returns at once when that call is
    accepted. *)
Lemma post_step_first_call config story env st r st' :
  truthy (blueskyUsername config) && truthy (blueskyPassword config) = true ->
  retryWithBackoff (postToBluesky config story) 3 2000 env st = (r, st') ->
  exists e rest,
    trace st' = trace st ++ e :: rest /\
    (e = Posted story \/ e = PostFailed story) /\
    (bluesky env (post_calls st) story = None -> r = inr tt /\ e = Posted story).
Proof.
  intros Hcreds. apply andb_true_iff in Hcreds as [Hu Hp].
  unfold_retry. unfold postToBluesky, throw, emit. rewrite Hu, Hp.
  cbn [negb orb feed_calls files post_calls trace].
  destruct (bluesky env (post_calls st) story) as [e0|] eqn:H0; cbn.
  - repeat match goal with
           | |- context [bluesky ?e ?k ?s] => destruct (bluesky e k s); cbn
           end;
      intros [= <- <-]; cbn [trace]; rewrite <- ?app_assoc; cbn [app];
      eexists _, _; (split; [reflexivity|]); (split; [now right|]); discriminate.
  - intros [= <- <-]. cbn [trace]. exists (Posted story), [].
    split; [reflexivity|]. split; [now left|]. auto.
Qed.

(** The freshness filter. *)
Lemma freshStories_In config now newStories s :
  In s (freshStories_of config now newStories)
  <-> In s newStories /\ now - publishedAt s <= maxStoryAgeHours config * 60 * 60 * 1000.
Proof.
  unfold freshStories_of. rewrite filter_In.
  destruct (Z.ltb_spec (maxStoryAgeHours config * 60 * 60 * 1000) (now - publishedAt s));
    intuition (discriminate || lia).
Qed.

(** ** [main] by cases on the selection *)

Section Cases.

Variable gt_coerced : Z -> json -> bool.

Lemma main_body_cases config env st state lastStoryId :
  loadState (stateFile config) env st = (inr state, st) ->
  get_lastStoryId state = inr lastStoryId ->
  main_body gt_coerced config env st
  = match retryWithBackoff (fetchRSSFeed config) 3 1000 env st with
    | (inl e, st1) => (inl e, st1)
    | (inr stories, st1) =>
        after_selection config state
          (select gt_coerced config lastStoryId (clock env) stories) env st1
    end.
Proof.
  intros Hload Hget. unfold main_body, bind at 1. rewrite Hload.
  unfold bind at 1, lift at 1. rewrite Hget.
  unfold bind at 1.
  destruct (retryWithBackoff (fetchRSSFeed config) 3 1000 env st) as [[e|stories] st1];
    [reflexivity|].
  unfold select, after_selection.
  destruct (newStories_of gt_coerced lastStoryId stories) as [|n news]; [reflexivity|].
  unfold bind at 1.
  destruct (freshStories_of config (clock env) (n :: news)) as [|s fresh]; reflexivity.
Qed.

(** The novelty filter, for a cursor that is the number [c]. *)
Lemma newStories_In c stories s :
  In s (newStories_of gt_coerced (Some (JNum c)) stories) <-> In s stories /\ c < id s.
Proof.
  unfold newStories_of. rewrite filter_In. simpl.
  destruct (Z.ltb_spec c (id s)); intuition (discriminate || lia).
Qed.

(** The three outcomes of the selection and when each arises. *)
Lemma select_cases config c now stories :
  (select gt_coerced config (Some (JNum c)) now stories = NoOp /\
   forall s, In s stories -> id s <= c)
  \/ (exists m,
        select gt_coerced config (Some (JNum c)) now stories = AdvanceOnly (Some m) /\
        (exists s, In s stories /\ c < id s /\ id s = m) /\
        (forall s, In s stories -> c < id s -> id s <= m) /\
        (forall s, In s stories -> c < id s ->
                   maxStoryAgeHours config * 60 * 60 * 1000 < now - publishedAt s))
  \/ (exists s rest,
        freshStories_of config now (newStories_of gt_coerced (Some (JNum c)) stories)
        = s :: rest /\
        select gt_coerced config (Some (JNum c)) now stories = PostAndAdvance s /\
        In s stories /\ c < id s /\
        now - publishedAt s <= maxStoryAgeHours config * 60 * 60 * 1000).
Proof.
  unfold select.
  destruct (newStories_of gt_coerced (Some (JNum c)) stories) as [|n news] eqn:Hnew.
  { left. split; [reflexivity|]. intros s Hs.
    destruct (Z.le_gt_cases (id s) c) as [|Hlt]; [assumption|].
    assert (In s []) as []. rewrite <- Hnew. apply newStories_In. split; [assumption | lia]. }
  right.
  destruct (freshStories_of config now (n :: news)) as [|p fresh] eqn:Hfresh.
  - left. destruct (Math_max_some (id n) (map id news)) as [m Hm].
    exists m. change (map id (n :: news)) with (id n :: map id news). rewrite Hm.
    split; [reflexivity|].
    pose proof (Math_max_In _ _ Hm) as Hin.
    change (id n :: map id news) with (map id (n :: news)) in Hin, Hm.
    apply in_map_iff in Hin as (s & Hs & Hsn).
    rewrite <- Hnew in Hsn, Hm. apply newStories_In in Hsn as [Hsn Hc].
    split; [now exists s|]. split.
    + intros t Ht Hct. apply (Math_max_upper _ _ Hm). apply in_map.
      apply newStories_In. now split.
    + intros t Ht Hct.
      destruct (Z.lt_ge_cases (maxStoryAgeHours config * 60 * 60 * 1000)
                              (now - publishedAt t)) as [|Hle]; [assumption|].
      assert (In t []) as []. rewrite <- Hfresh. apply freshStories_In.
      split; [|lia]. rewrite <- Hnew. apply newStories_In. now split.
  - right. exists p, fresh. split; [reflexivity|]. split; [reflexivity|].
    assert (In p (freshStories_of config now (n :: news))) as Hp
        by (rewrite Hfresh; now left).
    apply freshStories_In in Hp as [Hp Hage]. rewrite <- Hnew in Hp.
    apply newStories_In in Hp as [Hp Hc]. auto.
Qed.

(** On sorted stories the story selected has the least id of the fresh new
    ones. *)
Lemma select_least config c now stories p :
  StronglySorted id_le stories ->
  select gt_coerced config (Some (JNum c)) now stories = PostAndAdvance p ->
  forall t, In t stories -> c < id t ->
            now - publishedAt t <= maxStoryAgeHours config * 60 * 60 * 1000 ->
            id p <= id t.
Proof.
  intros Hsorted Hsel t Ht Hc Hage.
  unfold select in Hsel.
  destruct (newStories_of gt_coerced (Some (JNum c)) stories) as [|n news] eqn:Hnew;
    [discriminate|].
  destruct (freshStories_of config now (n :: news)) as [|q fresh] eqn:Hfresh;
    [discriminate|].
  injection Hsel as ->.
  assert (StronglySorted id_le (p :: fresh)) as Hs.
  { rewrite <- Hfresh, <- Hnew. unfold freshStories_of, newStories_of.
    now do 2 apply filter_sorted. }
  apply (sorted_head_least _ _ Hs). rewrite <- Hfresh.
  apply freshStories_In. split; [|assumption].
  rewrite <- Hnew. apply newStories_In. now split.
Qed.

(** One run, for a stored cursor that is the number [c] and a fetch step
    that returned [stories]: the state [st1] reached before the selection
    acts, and the exit code and final state for each outcome. *)
Lemma run_outcome config env fs c stories :
  loaded_cursor (stateFile config) env fs = Some c ->
  fetched config env fs = inr stories ->
  exists fields st1,
    st1 = after_fetch config env fs /\
    assoc_get "lastStoryId" fields = Some (JNum c) /\
    files st1 = fs /\ post_calls st1 = 0%nat /\ quiet (trace st1) /\
    StronglySorted id_le stories /\
    let saved v st :=
      write_file (stateFile config)
                 (JSONText (JObj (assoc_set "lastStoryId" v fields))) st in
    match select gt_coerced config (Some (JNum c)) (clock env) stories with
    | NoOp => run gt_coerced config env fs = (0, st1)
    | AdvanceOnly latestId =>
        run gt_coerced config env fs = (0, saved (number_json latestId) st1)
    | PostAndAdvance story =>
        if dryRun config then run gt_coerced config env fs = (0, st1)
        else
          exists r st2 evs,
            retryWithBackoff (postToBluesky config story) 3 2000 env st1 = (r, st2) /\
            files st2 = fs /\ trace st2 = trace st1 ++ evs /\ writes evs = [] /\
            Forall (fun e => e = Posted story \/ e = PostFailed story
                             \/ exists ms, e = Slept ms) evs /\
            match r with
            | inr _ =>
                In (Posted story) evs /\
                run gt_coerced config env fs = (0, saved (JNum (id story)) st2)
            | inl _ =>
                ~ In (Posted story) evs /\ run gt_coerced config env fs = (1, st2)
            end
    end.
Proof.
  intros Hcur Hfetch.
  unfold loaded_cursor in Hcur. rewrite loadState_eq in Hcur.
  pose proof (loadState_eq (stateFile config) env (start fs)) as Hload.
  change (files (start fs)) with fs in *.
  set (state := match fs !! stateFile config with
                | Some (JSONText v) => v
                | _ => JObj [("lastStoryId", JNum 0)]
                end) in *.
  destruct (get_lastStoryId state) as [|[[| | n | | |]|]] eqn:Hget; try discriminate.
  injection Hcur as ->.
  destruct (get_lastStoryId_number _ _ Hget) as (fields & Hstate & Hfields).
  unfold fetched in Hfetch. unfold after_fetch.
  destruct (retryWithBackoff (fetchRSSFeed config) 3 1000 env (start fs))
    as [r st1] eqn:Hretry.
  simpl in Hfetch. subst r.
  destruct (fetch_step_frame _ _ _ _ _ Hretry)
    as (Hfiles & Hposts & (evs0 & Htrace & Hquiet) & Hsorted).
  destruct (Hsorted _ eq_refl) as [raw ->].
  exists fields, st1. split; [reflexivity|].
  split; [assumption|]. split; [assumption|]. split; [assumption|].
  split; [now rewrite Htrace|]. split; [apply sort_by_id_sorted|].
  pose proof (main_body_cases config env (start fs) state _ Hload Hget) as Hbody.
  rewrite Hretry in Hbody. unfold run, main. rewrite Hbody. rewrite Hstate.
  cbv zeta.
  destruct (select gt_coerced config (Some (JNum c)) (clock env) (sort_by_id raw))
    as [|latestId|story]; cbn [after_selection].
  - reflexivity.
  - reflexivity.
  - destruct (dryRun config); [reflexivity|].
    destruct (retryWithBackoff (postToBluesky config story) 3 2000 env st1)
      as [r st2] eqn:Hpost.
    destruct (post_step_frame _ _ _ _ _ _ Hpost) as (Hf2 & evs & Ht2 & Hw & Hall & Hr).
    exists r, st2, evs.
    split; [reflexivity|]. split; [now rewrite Hf2, Hfiles|]. split; [assumption|].
    split; [assumption|]. split; [assumption|].
    destruct r as [e|[]]; (split; [assumption|]);
      unfold bind at 1; rewrite Hpost; [now destruct e | reflexivity].
Qed.

End Cases.

(** ** Facts on traces and on the saved file *)

Lemma writes_app a b : writes (a ++ b) = writes a ++ writes b.
Proof. apply List.filter_app. Qed.

Lemma post_calls_of_app a b : post_calls_of (a ++ b) = post_calls_of a ++ post_calls_of b.
Proof. apply List.filter_app. Qed.

Lemma post_calls_of_story story evs :
  Forall (fun e => e = Posted story \/ e = PostFailed story \/ exists ms, e = Slept ms) evs ->
  Forall (fun e => e = Posted story \/ e = PostFailed story) (post_calls_of evs).
Proof.
  induction 1 as [|e evs He _ IH]; simpl; [constructor|].
  destruct He as [->|[->|[ms ->]]]; simpl; auto.
Qed.

Lemma writes_none_In evs path content : writes evs = [] -> ~ In (Wrote path content) evs.
Proof.
  intros H Hin. assert (In (Wrote path content) (writes evs)) as Hw.
  { apply filter_In. now split. }
  rewrite H in Hw. destruct Hw.
Qed.

Lemma loaded_cursor_saved filepath env fs fields n :
  loaded_cursor filepath env
    (<[filepath := JSONText (JObj (assoc_set "lastStoryId" (JNum n) fields))]> fs)
  = Some n.
Proof.
  rewrite loaded_cursor_eq, lookup_insert_eq. simpl. now rewrite assoc_get_set.
Qed.

(** A write at the end of a trace with no other write is the only place
    where a write can be found. *)
Lemma last_write_split l w pre e post :
  writes l = [] -> is_write e = true -> l ++ [w] = pre ++ e :: post ->
  pre = l /\ post = [].
Proof.
  revert pre. induction l as [|a l IH]; intros pre Hw He Heq.
  - destruct pre as [|b pre]; simpl in Heq.
    + injection Heq as _ <-. now split.
    + injection Heq as _ Heq. now destruct pre.
  - simpl in Hw. destruct (is_write a) eqn:Ha; [discriminate|].
    destruct pre as [|b pre]; simpl in Heq; injection Heq as <- Heq.
    + congruence.
    + destruct (IH pre Hw He Heq) as [-> ->]. now split.
Qed.

Section Writes.

Variable gt_coerced : Z -> json -> bool.

(** A run whose fetch step fails on the three attempts exits with 1 and
    has touched nothing. *)
Lemma run_fetch_failed config env fs c e :
  loaded_cursor (stateFile config) env fs = Some c ->
  fetched config env fs = inl e ->
  fst (run gt_coerced config env fs) = 1 /\
  files (snd (run gt_coerced config env fs)) = fs /\
  quiet (trace (snd (run gt_coerced config env fs))).
Proof.
  intros Hcur Hfetch.
  unfold loaded_cursor in Hcur. rewrite loadState_eq in Hcur.
  pose proof (loadState_eq (stateFile config) env (start fs)) as Hload.
  destruct (get_lastStoryId _) as [|last] eqn:Hget; [discriminate|].
  pose proof (main_body_cases gt_coerced config env (start fs) _ _ Hload Hget) as Hbody.
  unfold fetched in Hfetch.
  destruct (retryWithBackoff (fetchRSSFeed config) 3 1000 env (start fs))
    as [r st1] eqn:Hretry.
  simpl in Hfetch. subst r.
  destruct (fetch_step_frame _ _ _ _ _ Hretry) as (Hfiles & _ & (evs & Htr & Hq) & _).
  unfold run, main. rewrite Hbody.
  split; [now destruct e|]. split; [now destruct e|].
  destruct e; cbn [snd]; now rewrite Htr.
Qed.

(** What a run writes, for a stored cursor that is the number [c]:
    nothing, the files being as they were; or, once and last in the trace,
    the state file with a [lastStoryId] greater than [c]. *)
Lemma run_writes config env fs c :
  loaded_cursor (stateFile config) env fs = Some c ->
  (files (snd (run gt_coerced config env fs)) = fs /\
   writes (trace (snd (run gt_coerced config env fs))) = [])
  \/ (exists n fields tr,
        c < n /\
        trace (snd (run gt_coerced config env fs))
        = tr ++ [Wrote (stateFile config)
                       (JSONText (JObj (assoc_set "lastStoryId" (JNum n) fields)))] /\
        writes tr = [] /\
        files (snd (run gt_coerced config env fs))
        = <[stateFile config :=
              JSONText (JObj (assoc_set "lastStoryId" (JNum n) fields))]> fs).
Proof.
  intros Hcur.
  destruct (fetched config env fs) as [e|stories] eqn:Hfetch.
  { left. destruct (run_fetch_failed _ _ _ _ _ Hcur Hfetch) as (_ & Hf & Hw & _). auto. }
  destruct (run_outcome gt_coerced _ _ _ _ _ Hcur Hfetch)
    as (fields & st1 & Hst1 & _ & Hfiles & _ & [Hw Hp] & _ & Hrun).
  cbv zeta in Hrun.
  destruct (select_cases gt_coerced config c (clock env) stories)
    as [[Hsel _]|[(m & Hsel & (s & _ & Hc & Hm) & _)|(p & rest & _ & Hsel & _ & Hc & _)]];
    rewrite Hsel in Hrun.
  - left. rewrite Hrun. auto.
  - right. exists m, fields, (trace st1). rewrite Hrun.
    cbn [snd write_file trace files number_json]. rewrite Hfiles.
    split; [lia|]. auto.
  - destruct (dryRun config).
    { left. rewrite Hrun. auto. }
    destruct Hrun as (r & st2 & evs & _ & Hf2 & Htr & Hwe & _ & Hr).
    destruct r as [e|u]; destruct Hr as [_ Hrun]; rewrite Hrun.
    + left. cbn [snd]. rewrite Htr, writes_app, Hw, Hwe. auto.
    + right. exists (id p), fields, (trace st2).
      cbn [snd write_file trace files]. rewrite Hf2.
      split; [assumption|]. split; [reflexivity|].
      split; [|reflexivity]. now rewrite Htr, writes_app, Hw, Hwe.
Qed.

End Writes.

(** ** Facts on duplicate ids *)

Lemma same_keys_sym l l' : same_keys l l' -> same_keys l' l.
Proof. intros H i t. symmetry. apply H. Qed.

Lemma same_keys_sorted l l' s :
  same_keys l l' -> In s (sort_by_id l) ->
  exists s', In s' (sort_by_id l') /\ id s' = id s /\ publishedAt s' = publishedAt s.
Proof.
  intros H Hs. apply (proj1 (sort_by_id_In _ _)) in Hs.
  assert (exists x, In x l /\ id x = id s /\ publishedAt x = publishedAt s) as Hex.
  { exists s. auto. }
  apply H in Hex as (s' & Hs' & Hid & Hpub).
  exists s'. rewrite sort_by_id_In. auto.
Qed.

Lemma dedupe_In s l : In s (dedupe l) -> In s l.
Proof.
  induction l as [|x l IH]; simpl; [auto|].
  intros [->|Hs]; [now left|]. apply filter_In in Hs as [Hs _]. right. now apply IH.
Qed.

Lemma dedupe_keeps_id s l : In s l -> exists s', In s' (dedupe l) /\ id s' = id s.
Proof.
  induction l as [|x l IH]; simpl; [intros []|].
  intros [->|Hs]; [exists s; auto|].
  destruct (IH Hs) as (s' & Hs' & Hid).
  destruct (Z.eqb_spec (id s') (id x)) as [Heq|Hne].
  - exists x. split; [now left | congruence].
  - exists s'. split; [|assumption]. right. apply filter_In. split; [assumption|].
    now apply negb_true_iff, Z.eqb_neq.
Qed.

Lemma dedupe_same_keys l :
  (forall a b, In a l -> In b l -> id a = id b -> publishedAt a = publishedAt b) ->
  same_keys (dedupe l) l.
Proof.
  intros H i t. split; intros (s & Hs & Hid & Hpub).
  - exists s. split; [now apply dedupe_In | auto].
  - destruct (dedupe_keeps_id s l Hs) as (s' & Hs' & Hid').
    exists s'. split; [assumption|]. split; [congruence|].
    rewrite <- Hpub. apply H; [now apply dedupe_In | assumption | assumption].
Qed.

Section Keys.

Variable gt_coerced : Z -> json -> bool.
Variable config : Config.
Variable c now : Z.

Lemma covered_has_new L L' : covered L L' -> has_new c L -> has_new c L'.
Proof.
  intros H (s & Hs & Hn). destruct (H s Hs) as (s' & Hs' & Hid & _).
  exists s'. unfold is_new in *. split; [assumption | lia].
Qed.

Lemma covered_has_fresh L L' :
  covered L L' -> has_fresh config c now L -> has_fresh config c now L'.
Proof.
  intros H (s & Hs & Hn & Hf). destruct (H s Hs) as (s' & Hs' & Hid & Hpub).
  exists s'. unfold is_new, is_fresh in *. repeat split; [assumption | lia | lia].
Qed.

Lemma covered_greatest_new L L' m m' :
  covered L L' -> greatest_new c L m -> greatest_new c L' m' -> m <= m'.
Proof.
  intros H [(s & Hs & Hn & Hm) _] [_ Hmax'].
  destruct (H s Hs) as (s' & Hs' & Hid & _).
  specialize (Hmax' s' Hs'). unfold is_new in *. lia.
Qed.

Lemma covered_least_fresh L L' i i' :
  covered L L' -> least_fresh config c now L i -> least_fresh config c now L' i' ->
  i' <= i.
Proof.
  intros H [(s & Hs & Hn & Hf & Hi) _] [_ Hmin'].
  destruct (H s Hs) as (s' & Hs' & Hid & Hpub).
  specialize (Hmin' s' Hs'). unfold is_new, is_fresh in *. lia.
Qed.

(** The outcome of the selection on sorted stories, in these terms. *)
Lemma decision_cases L :
  StronglySorted id_le L ->
  (decision_of (select gt_coerced config (Some (JNum c)) now L) = DNoOp /\ ~ has_new c L)
  \/ (exists m,
        decision_of (select gt_coerced config (Some (JNum c)) now L) = DAdvance (Some m) /\
        greatest_new c L m /\ ~ has_fresh config c now L)
  \/ (exists i,
        decision_of (select gt_coerced config (Some (JNum c)) now L) = DPost i /\
        least_fresh config c now L i).
Proof.
  intros Hsorted.
  destruct (select_cases gt_coerced config c now L)
    as [[Hsel Hold]|[(m & Hsel & Hex & Hmax & Hstale)|(p & rest & _ & Hsel & Hp & Hc & Hage)]].
  - left. rewrite Hsel. split; [reflexivity|].
    intros (s & Hs & Hn). specialize (Hold s Hs). unfold is_new in Hn. lia.
  - right. left. exists m. rewrite Hsel. split; [reflexivity|].
    split; [split; assumption|].
    intros (s & Hs & Hn & Hf). specialize (Hstale s Hs Hn). unfold is_fresh in Hf. lia.
  - right. right. exists (id p). rewrite Hsel. split; [reflexivity|]. split.
    + exists p. unfold is_new, is_fresh. auto.
    + intros t Ht Hn Hf.
      now apply (select_least gt_coerced config c now L p Hsorted Hsel).
Qed.

(** The outcome depends on the ids and publication times only. *)
Lemma decision_covered L L' :
  StronglySorted id_le L -> StronglySorted id_le L' ->
  covered L L' -> covered L' L ->
  decision_of (select gt_coerced config (Some (JNum c)) now L)
  = decision_of (select gt_coerced config (Some (JNum c)) now L').
Proof.
  intros Hs Hs' H H'.
  destruct (decision_cases L Hs) as [[-> Hn]|[(m & -> & Hm & Hf)|(i & -> & Hi)]];
    destruct (decision_cases L' Hs') as [[-> Hn']|[(m' & -> & Hm' & Hf')|(i' & -> & Hi')]].
  - reflexivity.
  - exfalso. apply Hn. apply (covered_has_new L' L H').
    destruct Hm' as [(s & ? & ? & _) _]. now exists s.
  - exfalso. apply Hn. apply (covered_has_new L' L H').
    destruct Hi' as [(s & ? & ? & _) _]. now exists s.
  - exfalso. apply Hn'. apply (covered_has_new L L' H).
    destruct Hm as [(s & ? & ? & _) _]. now exists s.
  - pose proof (covered_greatest_new _ _ _ _ H Hm Hm').
    pose proof (covered_greatest_new _ _ _ _ H' Hm' Hm).
    do 2 f_equal. lia.
  - exfalso. apply Hf. apply (covered_has_fresh L' L H').
    destruct Hi' as [(s & ? & ? & ? & _) _]. now exists s.
  - exfalso. apply Hn'. apply (covered_has_new L L' H).
    destruct Hi as [(s & ? & ? & _) _]. now exists s.
  - exfalso. apply Hf'. apply (covered_has_fresh L L' H).
    destruct Hi as [(s & ? & ? & ? & _) _]. now exists s.
  - pose proof (covered_least_fresh _ _ _ _ H Hi Hi').
    pose proof (covered_least_fresh _ _ _ _ H' Hi' Hi).
    f_equal. lia.
Qed.

Lemma decision_same_keys l l' :
  same_keys l l' ->
  decision_of (select gt_coerced config (Some (JNum c)) now (sort_by_id l))
  = decision_of (select gt_coerced config (Some (JNum c)) now (sort_by_id l')).
Proof.
  intros H. apply decision_covered; try apply sort_by_id_sorted.
  - intros s Hs. now apply (same_keys_sorted l l').
  - intros s Hs. apply (same_keys_sorted l' l); [now apply same_keys_sym | assumption].
Qed.

End Keys.

(** ** The properties of a run *)

Section Claims.

Variable gt_coerced : Z -> json -> bool.

(** C7. The novelty filter is strict: with the cursor [c] loaded, a story
    passes it exactly when its id is greater than [c], so a story whose id
    is [c] does not; and when no story fetched passes it the run is a
    no-op: it exits with 0 in the state the fetch step left, the files are
    as they were, nothing is written and no post is attempted. *)
Theorem novelty_filter_strict config env fs c :
  loaded_cursor (stateFile config) env fs = Some c ->
  (forall stories s,
      In s (newStories_of gt_coerced (Some (JNum c)) stories) <-> In s stories /\ c < id s) /\
  (forall stories s,
      id s = c -> ~ In s (newStories_of gt_coerced (Some (JNum c)) stories)) /\
  (forall stories,
      fetched config env fs = inr stories ->
      (forall s, In s stories -> id s <= c) ->
      select gt_coerced config (Some (JNum c)) (clock env) stories = NoOp /\
      run gt_coerced config env fs = (0, after_fetch config env fs) /\
      files (snd (run gt_coerced config env fs)) = fs /\
      writes (trace (snd (run gt_coerced config env fs))) = [] /\
      post_calls_of (trace (snd (run gt_coerced config env fs))) = []).
Proof.
  intros Hcur. split; [intros; apply newStories_In|]. split.
  { intros stories s Hid Hin. apply newStories_In in Hin. lia. }
  intros stories Hfetch Hold.
  destruct (run_outcome gt_coerced _ _ _ _ _ Hcur Hfetch)
    as (fields & st1 & Hst1 & _ & Hfiles & _ & [Hw Hp] & _ & Hrun).
  destruct (select_cases gt_coerced config c (clock env) stories)
    as [[Hsel _]|[(m & _ & (s & Hs & Hc & _) & _)|(s & rest & _ & _ & Hs & Hc & _)]].
  - rewrite Hsel in Hrun. cbv zeta in Hrun. rewrite Hrun. simpl.
    split; [exact Hsel|]. split; [now rewrite Hst1|]. auto.
  - specialize (Hold s Hs). lia.
  - specialize (Hold s Hs). lia.
Qed.

(** C6. The freshness filter keeps a story exactly when [now] minus its
    publication time is at most the age limit (in milliseconds), the limit
    included, and the run acts on it.  For a run that loaded the cursor [c]
    and fetched [stories]: the filter of [main] keeps the new stories whose
    age is at most the limit; whatever the run posts or tries to post is a
    new story of age at most the limit; and when a new story [s] was
    published exactly [maxStoryAgeHours] before [now], the run is a post
    run and never a skip of the backlog: a story [p] of id at most that of
    [s] is selected ([s] itself when no other fresh new story has its id
    or a smaller one), the run writes only after [p] is posted, and outside
    dry-run with both credentials set the posting service is called for
    [p]; if it accepts the first call, the run exits with 0 having posted
    [p] and saved its id. *)
Theorem freshness_boundary_inclusive config env fs c stories :
  loaded_cursor (stateFile config) env fs = Some c ->
  fetched config env fs = inr stories ->
  (forall s,
      In s (freshStories_of config (clock env)
              (newStories_of gt_coerced (Some (JNum c)) stories))
      <-> In s stories /\ c < id s /\
          clock env - publishedAt s <= maxStoryAgeHours config * 3600000) /\
  (forall p,
      In (Posted p) (trace (snd (run gt_coerced config env fs))) \/
      In (PostFailed p) (trace (snd (run gt_coerced config env fs))) ->
      In p stories /\ c < id p /\
      clock env - publishedAt p <= maxStoryAgeHours config * 3600000) /\
  (forall s,
      In s stories -> c < id s ->
      clock env - publishedAt s = maxStoryAgeHours config * 3600000 ->
      exists p,
        select gt_coerced config (Some (JNum c)) (clock env) stories = PostAndAdvance p /\
        id p <= id s /\
        ((forall t, In t stories -> c < id t ->
                    clock env - publishedAt t <= maxStoryAgeHours config * 3600000 ->
                    t = s \/ id s < id t) ->
         p = s) /\
        (forall path content,
            In (Wrote path content) (trace (snd (run gt_coerced config env fs))) ->
            In (Posted p) (trace (snd (run gt_coerced config env fs)))) /\
        (dryRun config = false ->
         truthy (blueskyUsername config) && truthy (blueskyPassword config) = true ->
         (exists e rest,
             post_calls_of (trace (snd (run gt_coerced config env fs))) = e :: rest /\
             (e = Posted p \/ e = PostFailed p)) /\
         (bluesky env 0%nat p = None ->
          fst (run gt_coerced config env fs) = 0 /\
          In (Posted p) (trace (snd (run gt_coerced config env fs))) /\
          loaded_cursor (stateFile config) env
                        (files (snd (run gt_coerced config env fs)))
          = Some (id p)))).
Proof.
  intros Hcur Hfetch.
  destruct (run_outcome gt_coerced _ _ _ _ _ Hcur Hfetch)
    as (fields & st1 & Hst1 & _ & Hfiles & Hpc & [Hw Hp] & Hsorted & Hrun).
  cbv zeta in Hrun.
  assert (forall q, ~ In (Posted q) (trace st1) /\ ~ In (PostFailed q) (trace st1)) as Hnone.
  { intros q. split; intros Hin.
    - assert (In (Posted q) (post_calls_of (trace st1))) as Hin'
          by (apply filter_In; now split).
      rewrite Hp in Hin'. destruct Hin'.
    - assert (In (PostFailed q) (post_calls_of (trace st1))) as Hin'
          by (apply filter_In; now split).
      rewrite Hp in Hin'. destruct Hin'. }
  split; [|split].
  - intros s. rewrite freshStories_In, newStories_In.
    split; [intros [[? ?] ?] | intros (? & ? & ?)]; repeat split; auto; lia.
  - intros q Hq.
    destruct (select_cases gt_coerced config c (clock env) stories)
      as [[Hsel _]|[(m & Hsel & _)|(p & rest & _ & Hsel & Hin & Hc & Hage)]];
      rewrite Hsel in Hrun.
    + rewrite Hrun in Hq. cbn [snd] in Hq. destruct (Hnone q). tauto.
    + rewrite Hrun in Hq. cbn [snd write_file trace] in Hq.
      destruct (Hnone q) as [H1 H2].
      destruct Hq as [Hq|Hq]; apply in_app_or in Hq as [Hq|[Hq|[]]];
        (contradiction || discriminate).
    + assert (q = p -> In q stories /\ c < id q /\
                       clock env - publishedAt q <= maxStoryAgeHours config * 3600000)
        as Hdone by (intros ->; repeat split; auto; lia).
      destruct (dryRun config).
      { rewrite Hrun in Hq. cbn [snd] in Hq. destruct (Hnone q). tauto. }
      destruct Hrun as (r & st2 & evs & _ & _ & Htr & _ & Hall & Hr).
      assert (In (Posted q) evs \/ In (PostFailed q) evs -> q = p) as Hevs.
      { rewrite List.Forall_forall in Hall.
        intros [Hin'|Hin']; destruct (Hall _ Hin') as [H|[H|[ms H]]]; congruence. }
      destruct (Hnone q) as [H1 H2].
      apply Hdone, Hevs.
      destruct r as [e|u]; destruct Hr as [_ Hrun]; rewrite Hrun in Hq;
        cbn [snd write_file trace] in Hq; rewrite Htr in Hq.
      * destruct Hq as [Hq|Hq]; apply in_app_or in Hq as [Hq|Hq]; tauto.
      * destruct Hq as [Hq|Hq]; apply in_app_or in Hq as [Hq|[Hq|[]]];
          try discriminate; apply in_app_or in Hq as [Hq|Hq]; tauto.
  - intros s Hs Hcs Hage.
    destruct (select_cases gt_coerced config c (clock env) stories)
      as [[_ Hold]|[(m & _ & _ & _ & Hstale)|(p & rest & _ & Hsel & Hin & Hc & Hpage)]].
    { specialize (Hold s Hs). lia. }
    { specialize (Hstale s Hs Hcs). lia. }
    exists p. split; [exact Hsel|].
    assert (id p <= id s) as Hle
        by (apply (select_least gt_coerced config c (clock env) stories p Hsorted Hsel s);
            auto; lia).
    split; [exact Hle|]. split.
    { intros Honly. destruct (Honly p Hin Hc ltac:(lia)) as [->|Hlt]; [reflexivity | lia]. }
    rewrite Hsel in Hrun.
    destruct (dryRun config).
    { rewrite Hrun. cbn [snd]. split; [|discriminate].
      intros path content Hwrote. now apply writes_none_In in Hwrote. }
    destruct Hrun as (r & st2 & evs & Hpost & Hf2 & Htr & Hwe & Hall & Hr).
    split.
    { intros path content.
      destruct r as [e|u]; destruct Hr as [Hposted Hrun]; rewrite Hrun;
        cbn [snd write_file trace]; rewrite Htr.
      - intros Hwrote. exfalso. revert Hwrote. apply writes_none_In.
        now rewrite writes_app, Hw, Hwe.
      - intros _. apply in_or_app. left. apply in_or_app. now right. }
    intros _ Hcreds.
    destruct (post_step_first_call _ _ _ _ _ _ Hcreds Hpost)
      as (e & more & Htr' & He & Hfirst).
    rewrite Hpc in Hfirst.
    assert (post_calls_of (trace st2) = e :: post_calls_of more) as Hcalls.
    { rewrite Htr'. rewrite post_calls_of_app, Hp. cbn [app].
      destruct He as [->| ->]; reflexivity. }
    split.
    { exists e.
      destruct r as [e'|u]; destruct Hr as [_ Hrun]; rewrite Hrun;
        cbn [snd write_file trace].
      - exists (post_calls_of more). now split.
      - exists (post_calls_of more ++ []). rewrite post_calls_of_app, Hcalls. now split. }
    intros Haccept. destruct (Hfirst Haccept) as [-> ->].
    destruct Hr as [Hposted Hrun]. rewrite Hrun. cbn [fst snd write_file trace files].
    split; [reflexivity|]. split.
    { apply in_or_app. left. rewrite Htr. apply in_or_app. now right. }
    apply loaded_cursor_saved.
Qed.

(** C2. When some story fetched is new (id above the cursor [c]) and every
    new story is older than the age limit, the run posts nothing and saves
    as cursor the greatest id of the new stories: the selection is
    [AdvanceOnly] of that id, no call of the posting service is made, the
    run exits with 0, and the state file then holds that id. *)
Theorem stale_backlog_advances_cursor config env fs c stories :
  loaded_cursor (stateFile config) env fs = Some c ->
  fetched config env fs = inr stories ->
  (exists s, In s stories /\ c < id s) ->
  (forall s, In s stories -> c < id s ->
             maxStoryAgeHours config * 3600000 < clock env - publishedAt s) ->
  exists m,
    (exists s, In s stories /\ c < id s /\ id s = m) /\
    (forall s, In s stories -> c < id s -> id s <= m) /\
    select gt_coerced config (Some (JNum c)) (clock env) stories = AdvanceOnly (Some m) /\
    fst (run gt_coerced config env fs) = 0 /\
    post_calls_of (trace (snd (run gt_coerced config env fs))) = [] /\
    post_calls (snd (run gt_coerced config env fs)) = 0%nat /\
    loaded_cursor (stateFile config) env (files (snd (run gt_coerced config env fs))) = Some m.
Proof.
  intros Hcur Hfetch (s0 & Hs0 & Hc0) Hstale.
  destruct (run_outcome gt_coerced _ _ _ _ _ Hcur Hfetch)
    as (fields & st1 & Hst1 & _ & Hfiles & Hcalls & [Hw Hp] & _ & Hrun).
  destruct (select_cases gt_coerced config c (clock env) stories)
    as [[_ Hold]|[(m & Hsel & Hex & Hmax & _)|(s & rest & _ & _ & Hs & Hc & Hage)]].
  - specialize (Hold s0 Hs0). lia.
  - exists m. rewrite Hsel in Hrun. cbv zeta in Hrun. rewrite Hrun.
    repeat (split; [assumption || reflexivity|]).
    cbn [fst snd write_file trace files post_calls number_json].
    rewrite post_calls_of_app, Hp.
    split; [reflexivity|]. split; [assumption|]. apply loaded_cursor_saved.
  - specialize (Hstale s Hs Hc). lia.
Qed.

(** C3. When some new story is fresh, the story selected for posting is a
    fresh new story of the least id among the fresh new stories fetched;
    outside dry-run every call of the posting service is for that story,
    and the run exits with 0 only having posted it. *)
Theorem oldest_fresh_story_selected config env fs c stories :
  loaded_cursor (stateFile config) env fs = Some c ->
  fetched config env fs = inr stories ->
  (exists s, In s stories /\ c < id s /\
             clock env - publishedAt s <= maxStoryAgeHours config * 3600000) ->
  exists p,
    select gt_coerced config (Some (JNum c)) (clock env) stories = PostAndAdvance p /\
    In p stories /\ c < id p /\
    clock env - publishedAt p <= maxStoryAgeHours config * 3600000 /\
    (forall t, In t stories -> c < id t ->
               clock env - publishedAt t <= maxStoryAgeHours config * 3600000 ->
               id p <= id t) /\
    (dryRun config = false ->
     Forall (fun e => e = Posted p \/ e = PostFailed p)
            (post_calls_of (trace (snd (run gt_coerced config env fs)))) /\
     (fst (run gt_coerced config env fs) = 0 ->
      In (Posted p) (trace (snd (run gt_coerced config env fs))))).
Proof.
  intros Hcur Hfetch (s0 & Hs0 & Hc0 & Hage0).
  destruct (run_outcome gt_coerced _ _ _ _ _ Hcur Hfetch)
    as (fields & st1 & Hst1 & _ & Hfiles & _ & [Hw Hp] & Hsorted & Hrun).
  destruct (select_cases gt_coerced config c (clock env) stories)
    as [[_ Hold]|[(m & _ & _ & _ & Hstale)|(p & rest & _ & Hsel & Hs & Hc & Hage)]].
  - specialize (Hold s0 Hs0). lia.
  - specialize (Hstale s0 Hs0 Hc0). lia.
  - exists p. split; [assumption|]. split; [assumption|]. split; [assumption|].
    split; [lia|]. split.
    { intros t Ht Hct Hat. apply (select_least gt_coerced config c (clock env) stories);
        try assumption. lia. }
    intros Hdry. rewrite Hsel, Hdry in Hrun. cbv zeta in Hrun.
    destruct Hrun as (r & st2 & evs & _ & _ & Htr & _ & Hall & Hr).
    apply post_calls_of_story in Hall.
    destruct r as [e|u]; destruct Hr as [Hposted Hrun]; rewrite Hrun;
      cbn [fst snd write_file trace]; rewrite ?post_calls_of_app, Htr, ?post_calls_of_app, Hp;
      cbn [app post_calls_of List.filter is_post_call]; rewrite ?app_nil_r.
    + split; [assumption|]. discriminate.
    + split; [assumption|]. intros _. apply in_or_app. left. apply in_or_app. now right.
Qed.

(** C1. In dry-run mode, a run whose selection is a post makes no call of
    the posting service and writes nothing: it exits with 0 in the state
    the fetch step left, and the files are as they were.  A run whose
    selection is an advance over a stale backlog still saves the advanced
    cursor under dry-run. *)
Theorem dry_run_skips_post_and_save config env fs c stories :
  dryRun config = true ->
  loaded_cursor (stateFile config) env fs = Some c ->
  fetched config env fs = inr stories ->
  (forall p,
      select gt_coerced config (Some (JNum c)) (clock env) stories = PostAndAdvance p ->
      run gt_coerced config env fs = (0, after_fetch config env fs) /\
      post_calls (snd (run gt_coerced config env fs)) = 0%nat /\
      post_calls_of (trace (snd (run gt_coerced config env fs))) = [] /\
      writes (trace (snd (run gt_coerced config env fs))) = [] /\
      files (snd (run gt_coerced config env fs)) = fs) /\
  (forall latestId,
      select gt_coerced config (Some (JNum c)) (clock env) stories = AdvanceOnly latestId ->
      exists m content,
        latestId = Some m /\ c < m /\
        fst (run gt_coerced config env fs) = 0 /\
        post_calls_of (trace (snd (run gt_coerced config env fs))) = [] /\
        writes (trace (snd (run gt_coerced config env fs)))
        = [Wrote (stateFile config) content] /\
        files (snd (run gt_coerced config env fs)) !! stateFile config = Some content /\
        loaded_cursor (stateFile config) env (files (snd (run gt_coerced config env fs)))
        = Some m).
Proof.
  intros Hdry Hcur Hfetch.
  destruct (run_outcome gt_coerced _ _ _ _ _ Hcur Hfetch)
    as (fields & st1 & Hst1 & _ & Hfiles & Hcalls & [Hw Hp] & _ & Hrun).
  cbv zeta in Hrun. split.
  - intros p Hsel. rewrite Hsel, Hdry in Hrun. rewrite Hrun. simpl.
    split; [now rewrite Hst1|]. auto.
  - intros latestId Hsel.
    destruct (select_cases gt_coerced config c (clock env) stories)
      as [[Hsel' _]|[(m & Hsel' & (s & _ & Hc & Hm) & _)|(p & rest & _ & Hsel' & _)]];
      rewrite Hsel in Hsel'; try discriminate.
    injection Hsel' as ->. rewrite Hsel in Hrun. rewrite Hrun.
    cbn [fst snd write_file trace files number_json].
    eexists m, _. split; [reflexivity|]. split; [lia|]. split; [reflexivity|].
    rewrite post_calls_of_app, writes_app, Hp, Hw. cbn.
    split; [reflexivity|]. split; [reflexivity|].
    split; [apply lookup_insert_eq | apply loaded_cursor_saved].
Qed.

(** C5. Outside dry-run, when the selection is a post of [p]: any write
    of the run comes after a successful post of [p] in the trace; and when
    the posting service refuses all three attempts the run exits with 1
    having posted and written nothing, the files being as they were loaded,
    so that the cursor loaded next is the same.  A run that exits with 0
    has saved the id of [p]. *)
Theorem cursor_saved_only_after_publish config env fs c stories p :
  dryRun config = false ->
  loaded_cursor (stateFile config) env fs = Some c ->
  fetched config env fs = inr stories ->
  select gt_coerced config (Some (JNum c)) (clock env) stories = PostAndAdvance p ->
  (forall pre path content post,
      trace (snd (run gt_coerced config env fs)) = pre ++ Wrote path content :: post ->
      In (Posted p) pre) /\
  ((forall k, (k < 3)%nat -> bluesky env k p <> None) ->
   fst (run gt_coerced config env fs) = 1 /\
   files (snd (run gt_coerced config env fs)) = fs /\
   writes (trace (snd (run gt_coerced config env fs))) = [] /\
   ~ In (Posted p) (trace (snd (run gt_coerced config env fs))) /\
   loaded_cursor (stateFile config) env (files (snd (run gt_coerced config env fs)))
   = Some c) /\
  (fst (run gt_coerced config env fs) = 0 ->
   In (Posted p) (trace (snd (run gt_coerced config env fs))) /\
   loaded_cursor (stateFile config) env (files (snd (run gt_coerced config env fs)))
   = Some (id p)).
Proof.
  intros Hdry Hcur Hfetch Hsel.
  destruct (run_outcome gt_coerced _ _ _ _ _ Hcur Hfetch)
    as (fields & st1 & Hst1 & _ & Hfiles & Hcalls & [Hw Hp] & _ & Hrun).
  cbv zeta in Hrun. rewrite Hsel, Hdry in Hrun.
  destruct Hrun as (r & st2 & evs & Hpost & Hf2 & Htr & Hwe & Hall & Hr).
  assert (writes (trace st2) = []) as Hw2 by now rewrite Htr, writes_app, Hw, Hwe.
  destruct r as [e|u]; destruct Hr as [Hposted Hrun]; rewrite Hrun;
    cbn [fst snd write_file trace files].
  - split; [|split].
    + intros pre path content post Heq. exfalso.
      apply (writes_none_In _ path content Hw2). rewrite Heq.
      apply in_or_app. right. now left.
    + intros _. rewrite Hf2. repeat (split; [assumption || reflexivity|]).
      split; [|assumption].
      rewrite Htr. intros Hin. apply in_app_or in Hin as [Hin|Hin]; [|auto].
      assert (In (Posted p) (post_calls_of (trace st1))) as Hin'
          by (apply filter_In; now split).
      rewrite Hp in Hin'. destruct Hin'.
    + discriminate.
  - split; [|split].
    + intros pre path content post Heq.
      destruct (last_write_split _ _ pre (Wrote path content) post Hw2 eq_refl Heq)
        as [-> _].
      rewrite Htr. apply in_or_app. now right.
    + intros Hrefused. exfalso.
      destruct (post_step_fails config p env st1) as [e He].
      { intros k Hk. rewrite Hcalls. cbn [Nat.add]. now apply Hrefused. }
      rewrite Hpost in He. discriminate.
    + intros _. split; [|apply loaded_cursor_saved].
      apply in_or_app. left. rewrite Htr. apply in_or_app. now right.
Qed.

(** C10. For a stored cursor that is the number [c], every write of a run
    is a write of the state file with a [lastStoryId] strictly greater
    than [c] (the greatest new id on an advance, the id of the story
    posted on a post), so the file is never rewritten with an equal value;
    and a run whose selection is a no-op writes nothing. *)
Theorem every_write_strictly_advances config env fs c :
  loaded_cursor (stateFile config) env fs = Some c ->
  (forall path content,
      In (Wrote path content) (trace (snd (run gt_coerced config env fs))) ->
      path = stateFile config /\
      files (snd (run gt_coerced config env fs)) !! path = Some content /\
      exists v n, content = JSONText v /\
                  get_lastStoryId v = inr (Some (JNum n)) /\ c < n) /\
  (forall stories,
      fetched config env fs = inr stories ->
      select gt_coerced config (Some (JNum c)) (clock env) stories = NoOp ->
      writes (trace (snd (run gt_coerced config env fs))) = [] /\
      files (snd (run gt_coerced config env fs)) = fs).
Proof.
  intros Hcur. split.
  - intros path content Hin.
    destruct (run_writes gt_coerced _ _ _ _ Hcur)
      as [[_ Hw]|(n & fields & tr & Hc & Htr & Hw & Hfiles)].
    + now apply writes_none_In in Hin.
    + rewrite Htr in Hin. apply in_app_or in Hin as [Hin|[Hin|[]]].
      * now apply writes_none_In in Hin.
      * injection Hin as <- <-. split; [reflexivity|].
        rewrite Hfiles, lookup_insert_eq. split; [reflexivity|].
        eexists _, n. split; [reflexivity|]. simpl. now rewrite assoc_get_set.
  - intros stories Hfetch Hsel.
    destruct (run_outcome gt_coerced _ _ _ _ _ Hcur Hfetch)
      as (fields & st1 & Hst1 & _ & Hfiles & _ & [Hw _] & _ & Hrun).
    rewrite Hsel in Hrun. cbv zeta in Hrun. rewrite Hrun. auto.
Qed.

(** C4. The cursor never decreases.  In one run, whatever its outcome,
    every value written to the state file is at least the value [c] loaded
    at the start, and so is the value a later run loads; and along any
    sequence of runs on one state file the cursors loaded at the start of
    each run and after the last are in non-decreasing order. *)
Theorem cursor_never_decreases :
  (forall config env fs c,
      loaded_cursor (stateFile config) env fs = Some c ->
      (forall path content,
          In (Wrote path content) (trace (snd (run gt_coerced config env fs))) ->
          exists v n, content = JSONText v /\
                      get_lastStoryId v = inr (Some (JNum n)) /\ c <= n) /\
      exists c',
        loaded_cursor (stateFile config) env (files (snd (run gt_coerced config env fs)))
        = Some c' /\ c <= c') /\
  (forall filepath env0 runs fs c,
      Forall (fun r => stateFile (fst r) = filepath) runs ->
      loaded_cursor filepath env0 fs = Some c ->
      exists cs,
        map (loaded_cursor filepath env0) (run_sequence gt_coerced runs fs)
        = map Some (c :: cs) /\
        StronglySorted Z.le (c :: cs)).
Proof.
  assert (forall config env fs c,
             loaded_cursor (stateFile config) env fs = Some c ->
             (forall path content,
                 In (Wrote path content) (trace (snd (run gt_coerced config env fs))) ->
                 exists v n, content = JSONText v /\
                             get_lastStoryId v = inr (Some (JNum n)) /\ c <= n) /\
             exists c',
               loaded_cursor (stateFile config) env
                             (files (snd (run gt_coerced config env fs)))
               = Some c' /\ c <= c') as Hone.
  { intros config env fs c Hcur.
    destruct (run_writes gt_coerced _ _ _ _ Hcur)
      as [[Hf Hw]|(n & fields & tr & Hc & Htr & Hw & Hfiles)].
    - split.
      + intros path content Hin. now apply writes_none_In in Hin.
      + exists c. rewrite Hf. split; [assumption | lia].
    - split.
      + intros path content Hin. rewrite Htr in Hin.
        apply in_app_or in Hin as [Hin|[Hin|[]]]; [now apply writes_none_In in Hin|].
        injection Hin as <- <-. eexists _, n. split; [reflexivity|].
        simpl. rewrite assoc_get_set. split; [reflexivity | lia].
      + exists n. rewrite Hfiles. split; [apply loaded_cursor_saved | lia]. }
  split; [exact Hone|].
  intros filepath env0 runs. induction runs as [|[config env] runs IH]; intros fs c Hall Hcur.
  - exists []. simpl. rewrite Hcur. split; [reflexivity|]. repeat constructor.
  - apply Forall_cons_iff in Hall as [Hpath Hall]. simpl in Hpath. subst filepath.
    cbn [run_sequence map]. rewrite Hcur.
    assert (loaded_cursor (stateFile config) env fs = Some c) as Hcur'
        by (rewrite loaded_cursor_eq in *; exact Hcur).
    destruct (Hone config env fs c Hcur') as [_ (c' & Hc' & Hle)].
    assert (loaded_cursor (stateFile config) env0
                          (files (snd (run gt_coerced config env fs))) = Some c') as Hc0
        by (rewrite loaded_cursor_eq in *; exact Hc').
    destruct (IH _ _ Hall Hc0) as (cs & Hmap & Hsorted).
    exists (c' :: cs). rewrite Hmap. split; [reflexivity|].
    constructor; [assumption|].
    constructor; [assumption|].
    apply StronglySorted_inv in Hsorted as [_ Hsorted].
    eapply List.Forall_impl; [|exact Hsorted]. intros; simpl in *; lia.
Qed.

(** C9 (as amended). For every path, when there is no file at the path
    or its text is not JSON, [loadState] returns the state with [lastStoryId] 0 and throws
    nothing; a run on such a state file loads the cursor 0, and if it exits
    with 1 that is because the fetch step failed or the post step did. *)
Theorem loadState_recovers_missing_or_corrupt filepath env st :
  (files st !! filepath = None \/ exists raw, files st !! filepath = Some (NotJSON raw)) ->
  loadState filepath env st = (inr (JObj [("lastStoryId", JNum 0)]), st) /\
  loaded_cursor filepath env (files st) = Some 0 /\
  (forall config env',
      stateFile config = filepath ->
      fst (run gt_coerced config env' (files st)) = 1 ->
      (exists e, fetched config env' (files st) = inl e) \/
      (dryRun config = false /\
       exists stories p,
         fetched config env' (files st) = inr stories /\
         select gt_coerced config (Some (JNum 0)) (clock env') stories = PostAndAdvance p /\
         ~ In (Posted p) (trace (snd (run gt_coerced config env' (files st)))))).
Proof.
  intros Hfile.
  assert (forall env1 st1, files st1 = files st ->
             loadState filepath env1 st1 = (inr (JObj [("lastStoryId", JNum 0)]), st1))
    as Hload.
  { intros env1 st1 Hst. rewrite loadState_eq, Hst.
    destruct Hfile as [->|[raw ->]]; reflexivity. }
  split; [now apply Hload|].
  assert (forall env1, loaded_cursor filepath env1 (files st) = Some 0) as Hcur.
  { intros env1. unfold loaded_cursor. now rewrite Hload. }
  split; [apply Hcur|].
  intros config env' <- Hexit.
  destruct (fetched config env' (files st)) as [e|stories] eqn:Hfetch; [left; eauto|].
  right.
  destruct (run_outcome gt_coerced _ _ _ _ _ (Hcur env') Hfetch)
    as (fields & st1 & Hst1 & _ & _ & _ & [_ Hp] & _ & Hrun).
  cbv zeta in Hrun.
  destruct (select gt_coerced config (Some (JNum 0)) (clock env') stories)
    as [|latestId|p] eqn:Hsel.
  - rewrite Hrun in Hexit. discriminate.
  - rewrite Hrun in Hexit. discriminate.
  - destruct (dryRun config); [rewrite Hrun in Hexit; discriminate|].
    split; [reflexivity|]. exists stories, p. split; [reflexivity|]. split; [exact Hsel|].
    destruct Hrun as (r & st2 & evs & _ & _ & Htr & _ & _ & Hr).
    destruct r as [e|u]; destruct Hr as [Hposted Hrun]; rewrite Hrun in *;
      [|discriminate].
    cbn [snd]. rewrite Htr. intros Hin. apply in_app_or in Hin as [Hin|Hin]; [|auto].
    assert (In (Posted p) (post_calls_of (trace st1))) as Hin'
        by (apply filter_In; now split).
    rewrite Hp in Hin'. destruct Hin'.
Qed.

(** When the entries of the candidate list that share an id also share
    their publication time, the outcome of the selection -- whether to
    post, the id chosen, the new cursor -- is the same on the list with
    the later entries of each id removed. *)
Lemma dedupe_preserves_decision config c now l :
  (forall a b, In a l -> In b l -> id a = id b -> publishedAt a = publishedAt b) ->
  decision_of (select gt_coerced config (Some (JNum c)) now (sort_by_id (dedupe l)))
  = decision_of (select gt_coerced config (Some (JNum c)) now (sort_by_id l)).
Proof.
  intros H. apply decision_same_keys. now apply dedupe_same_keys.
Qed.

End Claims.

(** ** The properties on concrete runs *)

Lemma stale_backlog_advances_cursor_witness :
  loaded_cursor "last-processed.json" (demo_env stale_two posting_up) (demo_files 100)
  = Some 100 /\
  select no_coercion (demo_config false) (Some (JNum 100)) demo_now
         (sort_by_id stale_two) = AdvanceOnly (Some 102) /\
  exists m,
    fst (run no_coercion (demo_config false) (demo_env stale_two posting_up)
             (demo_files 100)) = 0 /\
    post_calls_of (trace (snd (run no_coercion (demo_config false)
                                   (demo_env stale_two posting_up) (demo_files 100)))) = [] /\
    loaded_cursor "last-processed.json" (demo_env stale_two posting_up)
      (files (snd (run no_coercion (demo_config false)
                       (demo_env stale_two posting_up) (demo_files 100)))) = Some m.
Proof.
  split; [reflexivity|]. split; [reflexivity|].
  destruct (stale_backlog_advances_cursor no_coercion (demo_config false)
              (demo_env stale_two posting_up) (demo_files 100) 100
              (sort_by_id stale_two) eq_refl eq_refl)
    as (m & _ & _ & _ & Hexit & Hposts & _ & Hcur).
  - exists (demo_story 101 100). split; [now left | reflexivity].
  - intros s [<-|[<-|[]]] _; reflexivity.
  - exists m. auto.
Defined.

Lemma novelty_filter_strict_witness :
  loaded_cursor "last-processed.json"
                (demo_env [demo_story 100 1; demo_story 99 1] posting_up) (demo_files 100)
  = Some 100 /\
  ~ In (demo_story 100 1)
       (newStories_of no_coercion (Some (JNum 100)) [demo_story 100 1; demo_story 99 1]) /\
  fst (run no_coercion (demo_config false)
           (demo_env [demo_story 100 1; demo_story 99 1] posting_up) (demo_files 100)) = 0 /\
  files (snd (run no_coercion (demo_config false)
                  (demo_env [demo_story 100 1; demo_story 99 1] posting_up)
                  (demo_files 100))) = demo_files 100.
Proof.
  destruct (novelty_filter_strict no_coercion (demo_config false)
              (demo_env [demo_story 100 1; demo_story 99 1] posting_up)
              (demo_files 100) 100 eq_refl)
    as (_ & Hexcluded & Hnoop).
  split; [reflexivity|]. split; [now apply Hexcluded|].
  destruct (Hnoop (sort_by_id [demo_story 100 1; demo_story 99 1]) eq_refl)
    as (_ & Hexit & Hfiles & _).
  - intros s [<-|[<-|[]]]; discriminate.
  - auto.
Defined.

Lemma freshness_boundary_inclusive_witness :
  demo_now - publishedAt (demo_story 101 48)
  = maxStoryAgeHours (demo_config false) * 3600000 /\
  fst (run no_coercion (demo_config false) (demo_env fresh_and_boundary posting_up)
           (demo_files 100)) = 0 /\
  In (Posted (demo_story 101 48))
     (trace (snd (run no_coercion (demo_config false)
                      (demo_env fresh_and_boundary posting_up) (demo_files 100)))) /\
  loaded_cursor "last-processed.json" (demo_env fresh_and_boundary posting_up)
    (files (snd (run no_coercion (demo_config false)
                     (demo_env fresh_and_boundary posting_up) (demo_files 100))))
  = Some 101.
Proof.
  split; [reflexivity|].
  destruct (freshness_boundary_inclusive no_coercion (demo_config false)
              (demo_env fresh_and_boundary posting_up) (demo_files 100) 100
              (sort_by_id fresh_and_boundary) eq_refl eq_refl)
    as (_ & _ & Hboundary).
  destruct (Hboundary (demo_story 101 48)) as (p & Hsel & _ & _ & _ & Hrun);
    [now left | reflexivity | reflexivity |].
  vm_compute in Hsel. injection Hsel as <-.
  destruct (Hrun eq_refl eq_refl) as (_ & Hposted). exact (Hposted eq_refl).
Defined.

Lemma oldest_fresh_story_selected_witness :
  select no_coercion (demo_config false) (Some (JNum 100)) demo_now (sort_by_id fresh_three)
  = PostAndAdvance (demo_story 102 2) /\
  exists p,
    In p (sort_by_id fresh_three) /\
    (forall t, In t (sort_by_id fresh_three) -> 100 < id t ->
               demo_now - publishedAt t <= 48 * 3600000 -> id p <= id t) /\
    In (Posted p) (trace (snd (run no_coercion (demo_config false)
                                   (demo_env fresh_three posting_up) (demo_files 100)))).
Proof.
  split; [reflexivity|].
  destruct (oldest_fresh_story_selected no_coercion (demo_config false)
              (demo_env fresh_three posting_up) (demo_files 100) 100
              (sort_by_id fresh_three) eq_refl eq_refl)
    as (p & _ & Hin & _ & _ & Hleast & Hrun).
  - exists (demo_story 105 1). split; [vm_compute; auto|]. split; [reflexivity | discriminate].
  - exists p. split; [assumption|]. split; [exact Hleast|].
    destruct (Hrun eq_refl) as [_ Hposted]. now apply Hposted.
Defined.

Lemma dry_run_skips_post_and_save_witness :
  (fst (run no_coercion (demo_config true) (demo_env fresh_three posting_up)
            (demo_files 100)) = 0 /\
   writes (trace (snd (run no_coercion (demo_config true)
                           (demo_env fresh_three posting_up) (demo_files 100)))) = [] /\
   files (snd (run no_coercion (demo_config true) (demo_env fresh_three posting_up)
                   (demo_files 100))) = demo_files 100) /\
  (exists m,
      100 < m /\
      loaded_cursor "last-processed.json" (demo_env stale_two posting_up)
        (files (snd (run no_coercion (demo_config true) (demo_env stale_two posting_up)
                         (demo_files 100)))) = Some m).
Proof.
  split.
  - destruct (dry_run_skips_post_and_save no_coercion (demo_config true)
                (demo_env fresh_three posting_up) (demo_files 100) 100
                (sort_by_id fresh_three) eq_refl eq_refl eq_refl) as [Hpost _].
    destruct (Hpost (demo_story 102 2) eq_refl) as (Hexit & _ & _ & Hw & Hfiles). auto.
  - destruct (dry_run_skips_post_and_save no_coercion (demo_config true)
                (demo_env stale_two posting_up) (demo_files 100) 100
                (sort_by_id stale_two) eq_refl eq_refl eq_refl) as [_ Hadvance].
    destruct (Hadvance (Some 102) eq_refl) as (m & content & _ & Hlt & _ & _ & _ & _ & Hcur).
    exists m. auto.
Defined.

Lemma cursor_saved_only_after_publish_witness :
  (fst (run no_coercion (demo_config false) (demo_env fresh_three posting_down)
            (demo_files 100)) = 1 /\
   files (snd (run no_coercion (demo_config false) (demo_env fresh_three posting_down)
                   (demo_files 100))) = demo_files 100) /\
  (In (Posted (demo_story 102 2))
      (trace (snd (run no_coercion (demo_config false) (demo_env fresh_three posting_up)
                       (demo_files 100)))) /\
   loaded_cursor "last-processed.json" (demo_env fresh_three posting_up)
     (files (snd (run no_coercion (demo_config false) (demo_env fresh_three posting_up)
                      (demo_files 100)))) = Some 102).
Proof.
  split.
  - destruct (cursor_saved_only_after_publish no_coercion (demo_config false)
                (demo_env fresh_three posting_down) (demo_files 100) 100
                (sort_by_id fresh_three) (demo_story 102 2)
                eq_refl eq_refl eq_refl eq_refl) as (_ & Hfail & _).
    destruct Hfail as (Hexit & Hfiles & _); [intros k _; discriminate | auto].
  - destruct (cursor_saved_only_after_publish no_coercion (demo_config false)
                (demo_env fresh_three posting_up) (demo_files 100) 100
                (sort_by_id fresh_three) (demo_story 102 2)
                eq_refl eq_refl eq_refl eq_refl) as (_ & _ & Hok).
    exact (Hok eq_refl).
Defined.

Lemma every_write_strictly_advances_witness :
  trace (snd (run no_coercion (demo_config false) (demo_env stale_two posting_up)
                  (demo_files 100)))
  = [FeedRequested true;
     Wrote "last-processed.json" (JSONText (JObj [("lastStoryId", JNum 102)]))] /\
  exists v n,
    JSONText (JObj [("lastStoryId", JNum 102)]) = JSONText v /\
    get_lastStoryId v = inr (Some (JNum n)) /\ 100 < n.
Proof.
  split; [reflexivity|].
  destruct (every_write_strictly_advances no_coercion (demo_config false)
              (demo_env stale_two posting_up) (demo_files 100) 100 eq_refl)
    as [Hwrites _].
  destruct (Hwrites "last-processed.json" (JSONText (JObj [("lastStoryId", JNum 102)])))
    as (_ & _ & Hvalue); [right; now left | exact Hvalue].
Defined.

Lemma cursor_never_decreases_witness :
  map (loaded_cursor "last-processed.json" (demo_env [] posting_up))
      (run_sequence no_coercion three_runs (demo_files 100))
  = [Some 100; Some 102; Some 103; Some 103] /\
  exists cs,
    map (loaded_cursor "last-processed.json" (demo_env [] posting_up))
        (run_sequence no_coercion three_runs (demo_files 100))
    = map Some (100 :: cs) /\
    StronglySorted Z.le (100 :: cs).
Proof.
  split; [reflexivity|].
  destruct (cursor_never_decreases no_coercion) as [_ Hseq].
  apply (Hseq "last-processed.json" (demo_env [] posting_up) three_runs (demo_files 100) 100).
  - repeat constructor.
  - reflexivity.
Defined.

Lemma loadState_recovers_missing_or_corrupt_witness :
  loadState "last-processed.json" (demo_env [] posting_up) (start ∅)
  = (inr (JObj [("lastStoryId", JNum 0)]), start ∅) /\
  loadState "last-processed.json" (demo_env [] posting_up)
            (start {[ "last-processed.json" := NotJSON "{lastStoryId: " ]})
  = (inr (JObj [("lastStoryId", JNum 0)]),
     start {[ "last-processed.json" := NotJSON "{lastStoryId: " ]}).
Proof.
  split.
  - apply (loadState_recovers_missing_or_corrupt no_coercion). left. reflexivity.
  - apply (loadState_recovers_missing_or_corrupt no_coercion). right.
    exists "{lastStoryId: ". reflexivity.
Defined.

(** Two entries of one id that differ in title only. *)
Example dedupe_preserves_decision_on_repeated_entry :
  dedupe with_repeated_entry = [demo_story 103 1; demo_story 101 2] /\
  decision_of (select no_coercion (demo_config false) (Some (JNum 100)) demo_now
                      (sort_by_id (dedupe with_repeated_entry)))
  = decision_of (select no_coercion (demo_config false) (Some (JNum 100)) demo_now
                        (sort_by_id with_repeated_entry)).
Proof.
  split; [reflexivity|].
  apply (dedupe_preserves_decision no_coercion).
  intros a b [<-|[<-|[<-|[]]]] [<-|[<-|[<-|[]]]]; intros Hid;
    (reflexivity || discriminate Hid).
Qed.

(** Which entry of an id is kept matters when the entries differ in
    publication time: the program posts story 101, and on the list with
    the duplicate entries removed keeping the first of each id, or the
    last, it would advance the cursor without posting. *)
Example dedupe_changes_decision :
  decision_of (select no_coercion (demo_config false) (Some (JNum 100)) demo_now
                      (sort_by_id fresh_between_stale)) = DPost 101 /\
  decision_of (select no_coercion (demo_config false) (Some (JNum 100)) demo_now
                      (sort_by_id (dedupe fresh_between_stale))) = DAdvance (Some 101) /\
  decision_of (select no_coercion (demo_config false) (Some (JNum 100)) demo_now
                      (sort_by_id (dedupe_last fresh_between_stale))) = DAdvance (Some 101) /\
  decision_of (select no_coercion (demo_config false) (Some (JNum 100)) demo_now
                      (sort_by_id (dedupe fresh_between_stale)))
  <> decision_of (select no_coercion (demo_config false) (Some (JNum 100)) demo_now
                         (sort_by_id fresh_between_stale)).
Proof. repeat split; try reflexivity. discriminate. Qed.

(** ** What the recovery of [loadState] does not cover

    A file that holds JSON is returned as parsed, whatever its shape. *)
Remark loadState_returns_parsed_value filepath env st v :
  files st !! filepath = Some (JSONText v) ->
  loadState filepath env st = (inr v, st).
Proof. intros H. now rewrite loadState_eq, H. Qed.

(** C9, as stated, fails on a stored state that parses but is not a
    cursor.  A state file holding [null] is loaded as [null], not as the
    state with [lastStoryId] 0, and the run fails on reading [lastStoryId]:
    it exits with 1 before the feed is requested.  A state file holding an
    object without [lastStoryId] is loaded as that object: no cursor 0 is
    loaded, and the run posts nothing from a feed of which a run without
    state file posts story 102. *)
Lemma loadState_keeps_malformed_state :
  loadState "last-processed.json" (demo_env fresh_three posting_up)
            (start {[ "last-processed.json" := JSONText JNull ]})
  = (inr JNull, start {[ "last-processed.json" := JSONText JNull ]}) /\
  loaded_cursor "last-processed.json" (demo_env fresh_three posting_up)
                {[ "last-processed.json" := JSONText JNull ]}
  <> Some 0 /\
  run no_coercion (demo_config false) (demo_env fresh_three posting_up)
      {[ "last-processed.json" := JSONText JNull ]}
  = (1, start {[ "last-processed.json" := JSONText JNull ]}) /\
  loadState "last-processed.json" (demo_env fresh_three posting_up)
            (start {[ "last-processed.json" := JSONText (JObj []) ]})
  = (inr (JObj []), start {[ "last-processed.json" := JSONText (JObj []) ]}) /\
  loaded_cursor "last-processed.json" (demo_env fresh_three posting_up)
                {[ "last-processed.json" := JSONText (JObj []) ]}
  <> Some 0 /\
  run no_coercion (demo_config false) (demo_env fresh_three posting_up)
      {[ "last-processed.json" := JSONText (JObj []) ]}
  = (0, mkSt {[ "last-processed.json" := JSONText (JObj []) ]} 1 0 [FeedRequested true]) /\
  posted (trace (snd (run no_coercion (demo_config false)
                          (demo_env fresh_three posting_up) ∅)))
  = [demo_story 102 2].
Proof.
  split; [reflexivity|]. split; [discriminate|]. split; [reflexivity|].
  split; [reflexivity|]. split; [discriminate|]. split; reflexivity.
Qed.

(** ** The script kept in README.md under dry-run

    There the save is outside the test on [dryRun]: a dry run whose
    selection is a post saves the id of the story it did not post, where
    [main] of bot.ts leaves the file alone. *)
Example readme_dry_run_saves :
  readme_main no_coercion (demo_config true) (demo_env fresh_three posting_up)
              (start (demo_files 100))
  = (0, mkSt (demo_files 102) 1 0
             [FeedRequested true;
              Wrote "last-processed.json" (JSONText (JObj [("lastStoryId", JNum 102)]))]) /\
  run no_coercion (demo_config true) (demo_env fresh_three posting_up) (demo_files 100)
  = (0, mkSt (demo_files 100) 1 0 [FeedRequested true]).
Proof. split; reflexivity. Qed.

(** ** Further properties of the code *)

(** *** The link facet of a post *)

Lemma starts_with_prefix pat s : starts_with pat (pat ++ s) = true.
Proof.
  induction pat as [|p pat IH]; [reflexivity|].
  simpl. now rewrite Z.eqb_refl, IH.
Qed.

Lemma starts_with_refl pat : starts_with pat pat = true.
Proof. rewrite <- (app_nil_r pat) at 2. apply starts_with_prefix. Qed.

Lemma starts_with_short pat s :
  (length s < length pat)%nat -> starts_with pat s = false.
Proof.
  revert s. induction pat as [|p pat IH]; intros s Hlen; [simpl in Hlen; lia|].
  destruct s as [|c s]; [reflexivity|].
  simpl in *. rewrite IH by lia. apply andb_false_r.
Qed.

Lemma last_match_short s pat i best :
  (length s < length pat)%nat -> last_match s pat i best = best.
Proof.
  revert i. induction s as [|c s IH]; intros i Hlen; simpl.
  - now rewrite starts_with_short.
  - rewrite starts_with_short by assumption. apply IH. simpl in Hlen. lia.
Qed.

(** The last place where a text that ends with [pat] holds [pat] is its
    end, whatever comes before. *)
Lemma last_match_suffix before pat i best :
  pat <> [] ->
  last_match (before ++ pat) pat i best = i + Z.of_nat (length before).
Proof.
  intros Hpat. revert i best. induction before as [|c before IH]; intros i best.
  - destruct pat as [|p pat]; [congruence|].
    cbn [app last_match]. rewrite starts_with_refl, last_match_short by (simpl; lia).
    simpl. lia.
  - cbn [app last_match]. rewrite IH. cbn [length]. lia.
Qed.

Lemma slice0_prefix before rest :
  slice0 (before ++ rest) (Z.of_nat (length before)) = before.
Proof.
  unfold slice0. rewrite length_app.
  destruct (Z.ltb_spec (Z.of_nat (length before)) 0) as [|_]; [lia|].
  rewrite Z.min_l by lia. rewrite Nat2Z.id.
  rewrite firstn_app, firstn_all, Nat.sub_diag. simpl. apply app_nil_r.
Qed.

Lemma slice0_all text : slice0 text (Z.of_nat (length text)) = text.
Proof.
  unfold slice0.
  destruct (Z.ltb_spec (Z.of_nat (length text)) 0) as [|_]; [lia|].
  rewrite Z.min_id, Nat2Z.id. apply firstn_all.
Qed.

Lemma TextEncoder_encode_two u a rest :
  TextEncoder_encode (u :: a :: rest)
  = if is_high_surrogate u then
      if is_low_surrogate a
      then utf8_of_code_point (0x10000 + (u - 0xD800) * 1024 + (a - 0xDC00))
           ++ TextEncoder_encode rest
      else utf8_of_code_point 0xFFFD ++ TextEncoder_encode (a :: rest)
    else if is_low_surrogate u then utf8_of_code_point 0xFFFD ++ TextEncoder_encode (a :: rest)
    else utf8_of_code_point u ++ TextEncoder_encode (a :: rest).
Proof. reflexivity. Qed.

(** Encoding goes through a cut that does not come before a low
    surrogate. *)
Lemma TextEncoder_encode_app before rest :
  match rest with
  | v :: _ => is_low_surrogate v = false
  | [] => True
  end ->
  TextEncoder_encode (before ++ rest)
  = TextEncoder_encode before ++ TextEncoder_encode rest.
Proof.
  intros Hcut.
  assert (forall p,
             TextEncoder_encode (p ++ rest)
             = TextEncoder_encode p ++ TextEncoder_encode rest /\
             forall u, TextEncoder_encode ((u :: p) ++ rest)
                       = TextEncoder_encode (u :: p) ++ TextEncoder_encode rest)
    as H.
  { induction p as [|a p [IHp IHap]].
    - split; [reflexivity|]. intros u.
      destruct rest as [|v rest'].
      + now rewrite !app_nil_r.
      + cbn [app]. rewrite TextEncoder_encode_two, Hcut.
        cbn [TextEncoder_encode].
        destruct (is_high_surrogate u); [reflexivity|].
        destruct (is_low_surrogate u); now rewrite <- app_assoc.
    - split; [apply IHap|]. intros u.
      change ((u :: a :: p) ++ rest) with (u :: a :: (p ++ rest)).
      rewrite !TextEncoder_encode_two.
      change (a :: (p ++ rest)) with ((a :: p) ++ rest).
      destruct (is_high_surrogate u).
      + destruct (is_low_surrogate a).
        * now rewrite IHp, app_assoc.
        * now rewrite IHap, app_assoc.
      + destruct (is_low_surrogate u); now rewrite IHap, app_assoc. }
  apply H.
Qed.

(** X14. Whatever the title and the url, the facet pushed for the
    discussion link covers the words "Discuss on HN" that end the text and
    nothing else: [lastIndexOf] finds them at the end even when the title
    or the url holds the same words, the byte range ends with the encoded
    text, is 13 bytes long, holds the bytes of the label, and the facet
    links to the address given. *)
Theorem discuss_facet_covers_label title_units url_units hnUrl :
  lastIndexOf (postText_of title_units url_units) discussText
  = Z.of_nat (length (postText_of title_units url_units)) - 13 /\
  0 <= byteStart (discuss_facet_of (postText_of title_units url_units) hnUrl) /\
  byteEnd (discuss_facet_of (postText_of title_units url_units) hnUrl)
  = byteStart (discuss_facet_of (postText_of title_units url_units) hnUrl) + 13 /\
  byteEnd (discuss_facet_of (postText_of title_units url_units) hnUrl)
  = Z.of_nat (length (TextEncoder_encode (postText_of title_units url_units))) /\
  skipn (Z.to_nat (byteStart (discuss_facet_of (postText_of title_units url_units) hnUrl)))
        (TextEncoder_encode (postText_of title_units url_units))
  = discussText /\
  uri (discuss_facet_of (postText_of title_units url_units) hnUrl) = hnUrl.
Proof.
  set (before := [0xF0; 0x178; 0x201C; 0xB0; 0x20] ++ title_units
                 ++ [0x0A; 0x0A; 0xF0; 0x178; 0x201D; 0x2014; 0x20] ++ url_units
                 ++ [0x0A; 0x0A; 0xF0; 0x178; 0x2019; 0xAC; 0x20]).
  assert (postText_of title_units url_units = before ++ discussText) as Htext.
  { unfold postText_of, before, discussText. now rewrite <- !app_assoc. }
  assert (lastIndexOf (before ++ discussText) discussText = Z.of_nat (length before))
    as Hlast.
  { unfold lastIndexOf. rewrite last_match_suffix by discriminate. lia. }
  assert (TextEncoder_encode (before ++ discussText)
          = TextEncoder_encode before ++ discussText) as Henc.
  { rewrite TextEncoder_encode_app by reflexivity. reflexivity. }
  rewrite Htext. unfold discuss_facet_of. cbn [byteStart byteEnd uri].
  rewrite Hlast, slice0_prefix.
  replace (Z.of_nat (length before) + Z.of_nat (length discussText))
    with (Z.of_nat (length (before ++ discussText))) by (rewrite length_app; lia).
  rewrite slice0_all, Henc, !length_app, Nat2Z.id.
  change (length discussText) with 13%nat.
  repeat split; try lia.
  rewrite skipn_app, skipn_all, Nat.sub_diag. reflexivity.
Qed.

(** *** A run, whatever the state file holds *)

Lemma slept_app a b : slept (a ++ b) = slept a ++ slept b.
Proof. apply flat_map_app. Qed.

Lemma posted_app a b : posted (a ++ b) = posted a ++ posted b.
Proof. apply flat_map_app. Qed.

Lemma feed_requests_app a b : feed_requests (a ++ b) = feed_requests a ++ feed_requests b.
Proof. apply flat_map_app. Qed.

Lemma posted_no_post_call tr : post_calls_of tr = [] -> posted tr = [].
Proof.
  induction tr as [|e tr IH]; [reflexivity|].
  destruct e; simpl; try discriminate; exact IH.
Qed.

Lemma posted_In s tr : In s (posted tr) <-> In (Posted s) tr.
Proof.
  induction tr as [|e tr IH]; simpl; [tauto|].
  destruct e; simpl; rewrite IH; intuition (try discriminate); try congruence.
Qed.

Lemma assoc_get_set_other k k' v fields :
  k' <> k -> assoc_get k' (assoc_set k v fields) = assoc_get k' fields.
Proof.
  intros Hne. induction fields as [|[k0 v0] fields IH]; simpl.
  - destruct (String.eqb_spec k' k); [contradiction | reflexivity].
  - destruct (String.eqb_spec k k0) as [->|Hk]; simpl.
    + destruct (String.eqb_spec k' k0); [contradiction | reflexivity].
    + destruct (String.eqb_spec k' k0); [reflexivity | exact IH].
Qed.

(** The fetch step: at most three requests, each counted and traced, and
    nothing else but sleeps. *)
Lemma fetch_step_shape config env st r st' :
  retryWithBackoff (fetchRSSFeed config) 3 1000 env st = (r, st') ->
  (feed_calls st' <= feed_calls st + 3)%nat /\
  exists evs,
    trace st' = trace st ++ evs /\
    length (feed_requests evs) = (feed_calls st' - feed_calls st)%nat /\
    (0 < length (feed_requests evs))%nat.
Proof.
  unfold_retry. unfold fetchRSSFeed, emit. cbn [feed_calls files post_calls trace].
  repeat match goal with
         | |- context [feed ?e ?m ?k] => destruct (feed e m k); cbn
         end;
    intros [= <- <-]; cbn [feed_calls]; (split; [lia|]); trace_ext;
    cbn; split; lia.
Qed.

(** The post step: at most three calls, each counted and traced, one
    story posted when it returns and none when it throws. *)
Lemma post_step_shape config story env st r st' :
  retryWithBackoff (postToBluesky config story) 3 2000 env st = (r, st') ->
  files st' = files st /\ feed_calls st' = feed_calls st /\
  (post_calls st' <= post_calls st + 3)%nat /\
  exists evs,
    trace st' = trace st ++ evs /\ writes evs = [] /\ feed_requests evs = [] /\
    length (post_calls_of evs) = (post_calls st' - post_calls st)%nat /\
    posted evs = match r with inr _ => [story] | inl _ => [] end.
Proof.
  unfold_retry. unfold postToBluesky, throw, emit.
  destruct (negb (truthy (blueskyUsername config)) || negb (truthy (blueskyPassword config))).
  - cbn. intros [= <- <-]. cbn [feed_calls post_calls files].
    split; [reflexivity|]. split; [reflexivity|]. split; [lia|].
    trace_ext. cbn. repeat split; lia.
  - cbn [feed_calls files post_calls trace].
    repeat match goal with
           | |- context [bluesky ?e ?k ?s] => destruct (bluesky e k s); cbn
           end;
      intros [= <- <-]; cbn [feed_calls post_calls files];
      (split; [reflexivity|]); (split; [reflexivity|]); (split; [lia|]); trace_ext;
      cbn; repeat split; lia.
Qed.

Section AnyState.

Variable gt_coerced : Z -> json -> bool.

(** [main] by cases, for any state file. *)
Lemma run_by_cases config env fs :
  exists state,
    loaded_state (stateFile config) env fs = inr state /\
    run gt_coerced config env fs
    = match get_lastStoryId state with
      | inl _ => (1, start fs)
      | inr lastStoryId =>
          match fetched config env fs with
          | inl _ => (1, after_fetch config env fs)
          | inr stories =>
              exit_with
                (after_selection config state
                   (select gt_coerced config lastStoryId (clock env) stories)
                   env (after_fetch config env fs))
          end
      end.
Proof.
  pose proof (loadState_eq (stateFile config) env (start fs)) as Hload.
  set (state := match files (start fs) !! stateFile config with
                | Some (JSONText v) => v
                | _ => JObj [("lastStoryId", JNum 0)]
                end) in *.
  exists state. split; [unfold loaded_state; now rewrite Hload|].
  destruct (get_lastStoryId state) as [e|lastStoryId] eqn:Hget.
  - unfold run, main, main_body, bind at 1. rewrite Hload.
    unfold bind at 1, lift at 1. rewrite Hget. now destruct e.
  - unfold run, main.
    rewrite (main_body_cases gt_coerced config env (start fs) state _ Hload Hget).
    unfold fetched, after_fetch.
    destruct (retryWithBackoff (fetchRSSFeed config) 3 1000 env (start fs))
      as [[e|stories] st1]; cbn [fst snd]; [now destruct e|].
    destruct (after_selection _ _ _ _ _) as [[e|u] st']; cbn [exit_with];
      [now destruct e | reflexivity].
Qed.

(** What the part after the selection does: the post step if any, then at
    most one write, of the state file, and only when nothing was thrown. *)
Lemma after_selection_shape config state sel env st1 r st' :
  after_selection config state sel env st1 = (r, st') ->
  feed_calls st' = feed_calls st1 /\
  (post_calls st' <= post_calls st1 + 3)%nat /\
  exists evs w,
    trace st' = trace st1 ++ evs ++ w /\
    writes evs = [] /\ feed_requests evs = [] /\
    length (post_calls_of evs) = (post_calls st' - post_calls st1)%nat /\
    (length (posted evs) <= 1)%nat /\
    (dryRun config = true -> evs = []) /\
    ((w = [] /\ files st' = files st1) \/
     (exists v state',
         r = inr tt /\ set_lastStoryId state v = inr state' /\
         w = [Wrote (stateFile config) (JSONText state')] /\
         files st' = <[stateFile config := JSONText state']> (files st1))).
Proof.
  destruct sel as [|latestId|story]; cbn [after_selection].
  - intros [= <- <-]. repeat (split; [reflexivity || lia|]).
    exists [], []. rewrite app_nil_r. cbn. repeat split; auto; lia.
  - unfold bind at 1, lift at 1.
    destruct (set_lastStoryId state (number_json latestId)) as [e|state'] eqn:Hset;
      [|rewrite (saveState_after_set _ _ _ _ _ _ Hset)]; intros [= <- <-].
    + repeat (split; [reflexivity || lia|]).
      exists [], []. rewrite app_nil_r. cbn. repeat split; auto; lia.
    + cbn [write_file feed_calls post_calls trace files].
      repeat (split; [reflexivity || lia|]).
      exists [], [Wrote (stateFile config) (JSONText state')].
      cbn. repeat split; auto; try lia. right. eauto 6.
  - destruct (dryRun config).
    + intros [= <- <-]. repeat (split; [reflexivity || lia|]).
      exists [], []. rewrite app_nil_r. cbn. repeat split; auto; lia.
    + unfold bind at 1.
      destruct (retryWithBackoff (postToBluesky config story) 3 2000 env st1)
        as [rp st2] eqn:Hpost.
      destruct (post_step_shape _ _ _ _ _ _ Hpost)
        as (Hf & Hfc & Hpc & evs & Htr & Hw & Hfr & Hlen & Hposted).
      assert (length (posted evs) <= 1)%nat as Hone
          by (rewrite Hposted; destruct rp; simpl; lia).
      destruct rp as [e|u].
      * intros [= <- <-]. repeat (split; [assumption|]).
        exists evs, []. rewrite app_nil_r.
        repeat (split; [assumption || discriminate|]). left. auto.
      * unfold bind at 1, lift at 1.
        destruct (set_lastStoryId state (JNum (id story))) as [e|state'] eqn:Hset;
          [|rewrite (saveState_after_set _ _ _ _ _ _ Hset)]; intros [= <- <-].
        -- repeat (split; [assumption|]).
           exists evs, []. rewrite app_nil_r.
           repeat (split; [assumption || discriminate|]). left. auto.
        -- cbn [write_file feed_calls post_calls trace files].
           repeat (split; [assumption|]).
           exists evs, [Wrote (stateFile config) (JSONText state')].
           rewrite Htr, <- app_assoc, Hf.
           repeat (split; [assumption || reflexivity || discriminate|]).
           right. destruct u. eauto 6.
Qed.

End AnyState.

Lemma filter_none {A} (l : list A) : List.filter (fun _ => false) l = [].
Proof. induction l; auto. Qed.

Section RunProperties.

Variable gt_coerced : Z -> json -> bool.

(** The state a run ends in, for any state file, configuration and
    environment. *)
Lemma run_summary config env fs :
  (feed_calls (snd (run gt_coerced config env fs)) <= 3)%nat /\
  (post_calls (snd (run gt_coerced config env fs)) <= 3)%nat /\
  length (feed_requests (trace (snd (run gt_coerced config env fs))))
  = feed_calls (snd (run gt_coerced config env fs)) /\
  length (post_calls_of (trace (snd (run gt_coerced config env fs))))
  = post_calls (snd (run gt_coerced config env fs)) /\
  (length (posted (trace (snd (run gt_coerced config env fs)))) <= 1)%nat /\
  (dryRun config = true ->
   post_calls_of (trace (snd (run gt_coerced config env fs))) = []) /\
  ((writes (trace (snd (run gt_coerced config env fs))) = [] /\
    files (snd (run gt_coerced config env fs)) = fs) \/
   (exists state v state',
       loaded_state (stateFile config) env fs = inr state /\
       set_lastStoryId state v = inr state' /\
       fst (run gt_coerced config env fs) = 0 /\
       writes (trace (snd (run gt_coerced config env fs)))
       = [Wrote (stateFile config) (JSONText state')] /\
       files (snd (run gt_coerced config env fs))
       = <[stateFile config := JSONText state']> fs)).
Proof.
  destruct (run_by_cases gt_coerced config env fs) as (state & Hstate & Hrun).
  destruct (get_lastStoryId state) as [e|lastStoryId].
  { rewrite Hrun. cbn. repeat split; auto; try lia. }
  unfold fetched, after_fetch in Hrun.
  destruct (retryWithBackoff (fetchRSSFeed config) 3 1000 env (start fs))
    as [rf st1] eqn:Hretry.
  destruct (fetch_step_frame _ _ _ _ _ Hretry) as (Hfiles & Hposts & (evs0 & Htr0 & Hw0 & Hp0) & _).
  destruct (fetch_step_shape _ _ _ _ _ Hretry) as (Hfc & evs0' & Htr0' & Hlen0 & _).
  cbn [start trace files post_calls feed_calls app] in *.
  rewrite Htr0 in Htr0'. subst evs0'.
  rewrite Nat.sub_0_r in Hlen0.
  cbn [fst snd] in Hrun.
  destruct rf as [e|stories].
  { rewrite Hrun. cbn [fst snd]. rewrite Htr0, Hw0, Hp0, Hposts.
    pose proof (posted_no_post_call _ Hp0) as ->.
    repeat split; auto; simpl; try lia. }
  destruct (after_selection config state
              (select gt_coerced config lastStoryId (clock env) stories) env st1)
    as [r st'] eqn:Hafter.
  destruct (after_selection_shape _ _ _ _ _ _ _ Hafter)
    as (Hfc' & Hpc' & evs & w & Htr & Hw & Hfr & Hlen & Hone & Hdry & Hwrite).
  assert (fst (exit_with (r, st')) = match r with inr _ => 0 | inl _ => 1 end
          /\ snd (exit_with (r, st')) = st') as [Hexit Hsnd] by (now destruct r).
  rewrite Hrun, Hsnd, Htr, Htr0.
  rewrite !feed_requests_app, !post_calls_of_app, !posted_app, !writes_app, !length_app.
  rewrite Hfr, Hw, Hw0, Hp0, (posted_no_post_call _ Hp0), Hlen, Hlen0, Hfc'.
  assert (feed_requests w = [] /\ post_calls_of w = [] /\ posted w = [] /\
          (dryRun config = true -> post_calls_of evs = [])) as (-> & -> & -> & Hdry').
  { split; [|split; [|split]].
    - destruct Hwrite as [[-> _]|(v & state' & _ & _ & -> & _)]; reflexivity.
    - destruct Hwrite as [[-> _]|(v & state' & _ & _ & -> & _)]; reflexivity.
    - destruct Hwrite as [[-> _]|(v & state' & _ & _ & -> & _)]; reflexivity.
    - intros Hd. now rewrite (Hdry Hd). }
  cbn [app length]. rewrite !app_nil_r.
  split; [lia|]. split; [lia|]. split; [lia|]. split; [lia|]. split; [lia|].
  split; [exact Hdry'|].
  destruct Hwrite as [[-> Hf]|(v & state' & -> & Hset & -> & Hf)].
  - left. split; [reflexivity | congruence].
  - right. exists state, v, state'. rewrite Hexit. cbn. rewrite Hf, Hfiles. auto.
Qed.

(** X7. Whatever the state file, the configuration and the answers of the
    services, a run makes at most three feed requests and at most three
    calls of the posting service, posts at most one story and writes at
    most once. *)
Theorem run_posts_and_writes_at_most_once config env fs :
  (length (feed_requests (trace (snd (run gt_coerced config env fs)))) <= 3)%nat /\
  (length (post_calls_of (trace (snd (run gt_coerced config env fs)))) <= 3)%nat /\
  (length (posted (trace (snd (run gt_coerced config env fs)))) <= 1)%nat /\
  (length (writes (trace (snd (run gt_coerced config env fs)))) <= 1)%nat.
Proof.
  destruct (run_summary config env fs) as (Hf & Hp & Hlf & Hlp & Hone & _ & Hw).
  rewrite Hlf, Hlp. repeat (split; [assumption|]).
  destruct Hw as [[-> _]|(state & v & state' & _ & _ & _ & -> & _)]; simpl; lia.
Qed.

(** X8. Under dry-run the posting service is never called, whatever the
    state file holds and whatever the feed answers. *)
Theorem dry_run_never_calls_posting_service config env fs :
  dryRun config = true ->
  post_calls (snd (run gt_coerced config env fs)) = 0%nat /\
  post_calls_of (trace (snd (run gt_coerced config env fs))) = [] /\
  posted (trace (snd (run gt_coerced config env fs))) = [].
Proof.
  intros Hdry.
  destruct (run_summary config env fs) as (_ & _ & _ & Hlp & _ & Hnone & _).
  specialize (Hnone Hdry). rewrite <- Hlp, Hnone.
  repeat split. now apply posted_no_post_call.
Qed.

(** X6. A run that exits with 1 has written nothing: the files are the
    ones it started with; so a run that writes exits with 0. *)
Theorem failed_run_leaves_files_untouched config env fs :
  fst (run gt_coerced config env fs) = 1 ->
  writes (trace (snd (run gt_coerced config env fs))) = [] /\
  files (snd (run gt_coerced config env fs)) = fs.
Proof.
  intros Hexit.
  destruct (run_summary config env fs) as (_ & _ & _ & _ & _ & _ & Hw).
  destruct Hw as [Hw|(state & v & state' & _ & _ & H0 & _)]; [exact Hw|].
  rewrite H0 in Hexit. discriminate.
Qed.

(** X5. A run touches no file but the state file: every write is to
    [stateFile], and every other path holds after the run what it held
    before. *)
Theorem run_touches_only_state_file config env fs :
  (forall path content,
      In (Wrote path content) (trace (snd (run gt_coerced config env fs))) ->
      path = stateFile config) /\
  (forall path,
      path <> stateFile config ->
      files (snd (run gt_coerced config env fs)) !! path = fs !! path).
Proof.
  destruct (run_summary config env fs) as (_ & _ & _ & _ & _ & _ & Hw).
  destruct Hw as [[Hw ->]|(state & v & state' & _ & _ & _ & Hw & ->)].
  - split; [|reflexivity]. intros path content Hin. now apply writes_none_In in Hin.
  - split.
    + intros path content Hin.
      assert (In (Wrote path content) (writes (trace (snd (run gt_coerced config env fs)))))
        as Hin' by (apply filter_In; now split).
      rewrite Hw in Hin'. destruct Hin' as [[= <- _]|[]]. reflexivity.
    + intros path Hne. now rewrite lookup_insert_ne.
Qed.

(** X10. A run that saves writes back the object it loaded with
    [lastStoryId] set: every other property of the state file is kept as
    it was. *)
Theorem save_keeps_other_properties config env fs fields :
  fs !! stateFile config = Some (JSONText (JObj fields)) ->
  forall path content,
    In (Wrote path content) (trace (snd (run gt_coerced config env fs))) ->
    exists fields',
      content = JSONText (JObj fields') /\
      files (snd (run gt_coerced config env fs)) !! stateFile config = Some content /\
      (exists v, assoc_get "lastStoryId" fields' = Some v) /\
      (forall k, k <> "lastStoryId" -> assoc_get k fields' = assoc_get k fields).
Proof.
  intros Hfile path content Hin.
  destruct (run_summary config env fs) as (_ & _ & _ & _ & _ & _ & Hw).
  destruct Hw as [[Hw _]|(state & v & state' & Hstate & Hset & _ & Hw & Hfiles)].
  { now apply writes_none_In in Hin. }
  assert (In (Wrote path content) (writes (trace (snd (run gt_coerced config env fs)))))
    as Hin' by (apply filter_In; now split).
  rewrite Hw in Hin'. destruct Hin' as [[= <- <-]|[]].
  unfold loaded_state in Hstate. rewrite loadState_eq in Hstate.
  cbn [fst start files] in Hstate. rewrite Hfile in Hstate. injection Hstate as <-.
  cbn [set_lastStoryId] in Hset. injection Hset as <-.
  exists (assoc_set "lastStoryId" v fields).
  split; [reflexivity|]. split; [now rewrite Hfiles, lookup_insert_eq|].
  split; [exists v; apply assoc_get_set|].
  intros k Hk. now apply assoc_get_set_other.
Qed.

(** X11. When the loaded state has no [lastStoryId] (an object without
    the property, an array, a string, a number, a boolean), no story is
    new whatever the feed answers: the run ends in the state the fetch
    step left, with no post and no write, and exits with 0 unless the
    fetch step failed. *)
Theorem state_without_cursor_never_posts config env fs state :
  loaded_state (stateFile config) env fs = inr state ->
  get_lastStoryId state = inr None ->
  run gt_coerced config env fs
  = (match fetched config env fs with inr _ => 0 | inl _ => 1 end,
     after_fetch config env fs) /\
  posted (trace (snd (run gt_coerced config env fs))) = [] /\
  writes (trace (snd (run gt_coerced config env fs))) = [] /\
  files (snd (run gt_coerced config env fs)) = fs.
Proof.
  intros Hstate Hget.
  destruct (run_by_cases gt_coerced config env fs) as (state0 & Hstate0 & Hrun).
  rewrite Hstate in Hstate0. injection Hstate0 as <-. rewrite Hget in Hrun.
  assert (run gt_coerced config env fs
          = (match fetched config env fs with inr _ => 0 | inl _ => 1 end,
             after_fetch config env fs)) as Heq.
  { rewrite Hrun. destruct (fetched config env fs) as [e|stories]; [reflexivity|].
    unfold select, newStories_of. cbn [gt_lastStoryId]. now rewrite filter_none. }
  split; [exact Heq|]. rewrite Heq. cbn [snd]. unfold after_fetch.
  destruct (retryWithBackoff (fetchRSSFeed config) 3 1000 env (start fs))
    as [rf st1] eqn:Hretry.
  destruct (fetch_step_frame _ _ _ _ _ Hretry) as (Hfiles & _ & (evs0 & Htr0 & Hw0 & Hp0) & _).
  cbn [snd start trace files app] in *. rewrite Htr0.
  split; [now apply posted_no_post_call|]. auto.
Qed.

(** X16. A state file that holds [null] stops every run before the first
    request: the run exits with 1 and has done nothing. *)
Theorem null_state_stops_run config env fs :
  fs !! stateFile config = Some (JSONText JNull) ->
  run gt_coerced config env fs = (1, start fs).
Proof.
  intros Hfile.
  destruct (run_by_cases gt_coerced config env fs) as (state & Hstate & Hrun).
  unfold loaded_state in Hstate. rewrite loadState_eq in Hstate.
  cbn [fst start files] in Hstate. rewrite Hfile in Hstate. injection Hstate as <-.
  exact Hrun.
Qed.

End RunProperties.

(** *** No story twice *)

Section NoStoryTwice.

Variable gt_coerced : Z -> json -> bool.

(** What a run posts, for a stored cursor that is the number [c]: nothing,
    the cursor then not going down; or one story of id above [c], the
    cursor then being that id. *)
Lemma run_posted config env fs c :
  loaded_cursor (stateFile config) env fs = Some c ->
  exists c',
    loaded_cursor (stateFile config) env (files (snd (run gt_coerced config env fs)))
    = Some c' /\
    c <= c' /\
    (posted (trace (snd (run gt_coerced config env fs))) = [] \/
     exists s, posted (trace (snd (run gt_coerced config env fs))) = [s] /\
               c < id s /\ c' = id s).
Proof.
  intros Hcur.
  destruct (fetched config env fs) as [e|stories] eqn:Hfetch.
  { destruct (run_fetch_failed gt_coerced _ _ _ _ _ Hcur Hfetch) as (_ & Hf & _ & Hp).
    exists c. rewrite Hf. split; [assumption|]. split; [lia|].
    left. now apply posted_no_post_call. }
  destruct (run_outcome gt_coerced _ _ _ _ _ Hcur Hfetch)
    as (fields & st1 & _ & _ & Hfiles & _ & [Hw Hp] & _ & Hrun).
  cbv zeta in Hrun.
  pose proof (posted_no_post_call _ Hp) as Hnone.
  destruct (select_cases gt_coerced config c (clock env) stories)
    as [[Hsel _]|[(m & Hsel & (s & _ & Hc & Hm) & _)|(p & rest & _ & Hsel & _ & Hc & _)]];
    rewrite Hsel in Hrun.
  - exists c. rewrite Hrun. cbn [snd]. rewrite Hfiles.
    split; [assumption|]. split; [lia|]. now left.
  - exists m. rewrite Hrun. cbn [snd write_file trace files number_json].
    split; [apply loaded_cursor_saved|]. split; [lia|].
    left. now rewrite posted_app, Hnone.
  - destruct (dryRun config).
    { exists c. rewrite Hrun. cbn [snd]. rewrite Hfiles.
      split; [assumption|]. split; [lia|]. now left. }
    destruct Hrun as (r & st2 & evs & Hpost & Hf2 & Htr & _ & _ & Hr).
    destruct (post_step_shape _ _ _ _ _ _ Hpost) as (_ & _ & _ & evs' & Htr' & _ & _ & _ & Hposted).
    rewrite Htr in Htr'. apply app_inv_head in Htr'. subst evs'.
    destruct r as [e|u]; destruct Hr as [_ Hrun]; rewrite Hrun;
      cbn [snd write_file trace files].
    + exists c. rewrite Hf2. split; [assumption|]. split; [lia|].
      left. now rewrite Htr, posted_app, Hnone, Hposted.
    + exists (id p). split; [apply loaded_cursor_saved|]. split; [lia|].
      right. exists p. rewrite Htr, !posted_app, Hnone, Hposted. auto.
Qed.

(** X9. Along any sequence of runs on one state file whose cursor is a
    number, the ids of the stories posted are strictly increasing and all
    above the cursor the sequence started from: no story, and no id, is
    posted twice. *)
Theorem no_story_posted_twice filepath env0 runs fs c :
  Forall (fun r => stateFile (fst r) = filepath) runs ->
  loaded_cursor filepath env0 fs = Some c ->
  StronglySorted Z.lt (map id (posted_in_sequence gt_coerced runs fs)) /\
  Forall (fun i => c < i) (map id (posted_in_sequence gt_coerced runs fs)).
Proof.
  revert fs c. induction runs as [|[config env] runs IH]; intros fs c Hall Hcur.
  { split; constructor. }
  apply Forall_cons_iff in Hall as [Hpath Hall]. simpl in Hpath. subst filepath.
  assert (loaded_cursor (stateFile config) env fs = Some c) as Hcur'
      by (rewrite loaded_cursor_eq in *; exact Hcur).
  destruct (run_posted config env fs c Hcur') as (c' & Hc' & Hle & Hposted).
  assert (loaded_cursor (stateFile config) env0
                        (files (snd (run gt_coerced config env fs))) = Some c') as Hc0
      by (rewrite loaded_cursor_eq in *; exact Hc').
  destruct (IH _ _ Hall Hc0) as [Hsorted Habove].
  cbn [posted_in_sequence].
  destruct Hposted as [->|(s & -> & Hlt & ->)]; cbn [app map].
  - split; [assumption|].
    eapply List.Forall_impl; [|exact Habove]. intros; simpl in *; lia.
  - split.
    + constructor; assumption.
    + constructor; [assumption|].
      eapply List.Forall_impl; [|exact Habove]. intros; simpl in *; lia.
Qed.

End NoStoryTwice.

(** *** The script kept in README.md *)

Section Readme.

Variable gt_coerced : Z -> json -> bool.

(** X12. Outside dry-run the [main] of the script kept in README.md and
    the [main] of bot.ts do the same, for the same state file and the same
    answers of the services: same exit code, same calls, same writes. *)
Theorem readme_main_agrees_outside_dry_run config env st :
  dryRun config = false ->
  readme_main gt_coerced config env st = main gt_coerced config env st.
Proof.
  intros Hdry. unfold readme_main, main.
  assert (readme_main_body gt_coerced config env st = main_body gt_coerced config env st)
    as ->.
  { unfold readme_main_body, main_body. now rewrite Hdry. }
  destruct (main_body gt_coerced config env st) as [[[m|]|u] st']; reflexivity.
Qed.

(** X13. In the script kept in README.md a dry run does not spare the
    cursor: when the selection is a post of [p], it calls no service for
    it and still saves the id of [p], so the story is passed over without
    having been posted. *)
Theorem readme_dry_run_passes_story_over config env fs c stories p :
  dryRun config = true ->
  loaded_cursor (stateFile config) env fs = Some c ->
  fetched config env fs = inr stories ->
  select gt_coerced config (Some (JNum c)) (clock env) stories = PostAndAdvance p ->
  fst (readme_main gt_coerced config env (start fs)) = 0 /\
  post_calls_of (trace (snd (readme_main gt_coerced config env (start fs)))) = [] /\
  (exists content,
      writes (trace (snd (readme_main gt_coerced config env (start fs))))
      = [Wrote (stateFile config) content]) /\
  loaded_cursor (stateFile config) env
                (files (snd (readme_main gt_coerced config env (start fs))))
  = Some (id p) /\
  c < id p.
Proof.
  intros Hdry Hcur Hfetch Hsel.
  unfold loaded_cursor in Hcur. rewrite loadState_eq in Hcur.
  pose proof (loadState_eq (stateFile config) env (start fs)) as Hload.
  set (state := match files (start fs) !! stateFile config with
                | Some (JSONText v) => v
                | _ => JObj [("lastStoryId", JNum 0)]
                end) in *.
  destruct (get_lastStoryId state) as [|[[| | n | | |]|]] eqn:Hget; try discriminate.
  injection Hcur as ->.
  destruct (get_lastStoryId_number _ _ Hget) as (fields & Hstate & Hfields).
  unfold fetched in Hfetch.
  destruct (retryWithBackoff (fetchRSSFeed config) 3 1000 env (start fs))
    as [r st1] eqn:Hretry.
  simpl in Hfetch. subst r.
  destruct (fetch_step_frame _ _ _ _ _ Hretry) as (Hfiles & _ & (evs0 & Htr0 & Hw0 & Hp0) & _).
  assert (c < id p) as Hlt.
  { destruct (select_cases gt_coerced config c (clock env) stories)
      as [[Hs _]|[(m & Hs & _)|(q & rest & _ & Hs & _ & Hc & _)]];
      rewrite Hsel in Hs; try discriminate. now injection Hs as ->. }
  assert (readme_main_body gt_coerced config env (start fs)
          = (inr tt, write_file (stateFile config)
                       (JSONText (JObj (assoc_set "lastStoryId" (JNum (id p)) fields))) st1))
    as Hbody.
  { unfold readme_main_body, bind at 1. rewrite Hload.
    unfold bind at 1, lift at 1. rewrite Hget.
    unfold bind at 1. rewrite Hretry.
    unfold select in Hsel.
    destruct (newStories_of gt_coerced (Some (JNum c)) stories) as [|n news];
      [discriminate|].
    unfold bind at 1.
    destruct (freshStories_of config (clock env) (n :: news)) as [|q fresh];
      [discriminate|].
    injection Hsel as ->. rewrite Hdry, Hstate. reflexivity. }
  unfold readme_main. rewrite Hbody. cbn [fst snd write_file trace files].
  cbn [start trace app] in Htr0. rewrite Htr0, post_calls_of_app, writes_app, Hp0, Hw0.
  split; [reflexivity|]. split; [reflexivity|]. split; [eexists; reflexivity|].
  split; [apply loaded_cursor_saved | exact Hlt].
Qed.

End Readme.

(** *** Retrying with backoff *)

(** One turn of the loop of [retryWithBackoff]. *)
Lemma retry_from_step {T} (operation : M T) maxAttempts baseDelayMs remaining attempt
      lastError env st :
  retry_from operation maxAttempts baseDelayMs (S remaining) attempt lastError env st
  = match operation env st with
    | (inr v, st1) => (inr v, st1)
    | (inl e, st1) =>
        retry_from operation maxAttempts baseDelayMs remaining (S attempt) e env
          (if (attempt <? maxAttempts)%nat
           then emit (Slept (baseDelayMs * 2 ^ (Z.of_nat attempt - 1))) st1
           else st1)
    end.
Proof.
  cbn [retry_from]. unfold try_catch, bind.
  destruct (operation env st) as [[e|v] st1]; [|reflexivity].
  destruct (attempt <? maxAttempts)%nat; reflexivity.
Qed.

Lemma fetchRSSFeed_failed config env st e :
  feed env (minScore config) (feed_calls st) = inl e ->
  fetchRSSFeed config env st
  = (inl e, mkSt (files st) (S (feed_calls st)) (post_calls st)
                 (trace st ++ [FeedRequested false])).
Proof. intros H. unfold fetchRSSFeed. now rewrite H. Qed.

Lemma fetchRSSFeed_answered config env st raw :
  feed env (minScore config) (feed_calls st) = inr raw ->
  fetchRSSFeed config env st
  = (inr (sort_by_id raw), mkSt (files st) (S (feed_calls st)) (post_calls st)
                                (trace st ++ [FeedRequested true])).
Proof. intros H. unfold fetchRSSFeed. now rewrite H. Qed.

(** The loop on a feed that fails [remaining] times from the call it is
    at. *)
Lemma retry_fetch_all_fail config env maxAttempts baseDelayMs :
  forall remaining attempt lastError st err,
    (1 <= attempt)%nat -> (attempt + remaining = maxAttempts + 1)%nat ->
    (forall k, (k < remaining)%nat ->
               feed env (minScore config) (feed_calls st + k)%nat = inl (err k)) ->
    exists st' evs,
      retry_from (fetchRSSFeed config) maxAttempts baseDelayMs remaining attempt
                 lastError env st
      = (inl (match remaining with O => lastError | S m => err m end), st') /\
      feed_calls st' = (feed_calls st + remaining)%nat /\
      files st' = files st /\ post_calls st' = post_calls st /\
      trace st' = trace st ++ evs /\
      length evs = (remaining + (remaining - 1))%nat /\
      feed_requests evs = repeat false remaining /\
      slept evs = map (fun j => baseDelayMs * 2 ^ Z.of_nat j)
                      (seq (attempt - 1) (remaining - 1)) /\
      (remaining <> O -> List.last evs (Slept 0) = FeedRequested false).
Proof.
  induction remaining as [|remaining IH]; intros attempt lastError st err Ha Hsum Hfail.
  - exists st, []. cbn. rewrite app_nil_r. repeat split; auto. congruence.
  - rewrite retry_from_step.
    pose proof (Hfail O ltac:(lia)) as H0. rewrite Nat.add_0_r in H0.
    rewrite (fetchRSSFeed_failed _ _ _ _ H0).
    set (st1 := mkSt (files st) (S (feed_calls st)) (post_calls st)
                     (trace st ++ [FeedRequested false])).
    set (st2 := if (attempt <? maxAttempts)%nat
                then emit (Slept (baseDelayMs * 2 ^ (Z.of_nat attempt - 1))) st1
                else st1).
    assert (feed_calls st2 = S (feed_calls st) /\ files st2 = files st /\
            post_calls st2 = post_calls st) as (Hc2 & Hf2 & Hp2)
        by (unfold st2; destruct (attempt <? maxAttempts)%nat; auto).
    destruct (IH (S attempt) (err O) st2 (fun k => err (S k)))
      as (st' & evs & Heq & Hc & Hf & Hp & Htr & Hlen & Hreq & Hsl & Hlast).
    + lia.
    + lia.
    + intros k Hk. rewrite Hc2.
      replace (S (feed_calls st) + k)%nat with (feed_calls st + S k)%nat by lia.
      apply Hfail. lia.
    + destruct remaining as [|remaining].
      * assert ((attempt <? maxAttempts)%nat = false) as Hno
            by (apply Nat.ltb_ge; lia).
        unfold st2 in *. rewrite Hno in *.
        destruct evs as [|e evs]; [|discriminate Hlen].
        exists st', [FeedRequested false].
        rewrite Heq. split; [reflexivity|].
        split; [lia|]. split; [congruence|]. split; [congruence|].
        split; [rewrite Htr; unfold st1; cbn [trace]; now rewrite app_nil_r|].
        repeat split.
      * assert ((attempt <? maxAttempts)%nat = true) as Hyes
            by (apply Nat.ltb_lt; lia).
        unfold st2 in *. rewrite Hyes in *.
        exists st', ([FeedRequested false; Slept (baseDelayMs * 2 ^ (Z.of_nat attempt - 1))]
                     ++ evs).
        rewrite Heq. split; [reflexivity|].
        split; [lia|]. split; [congruence|]. split; [congruence|].
        split; [rewrite Htr; unfold st1, emit; cbn [trace]; now rewrite <- !app_assoc|].
        split; [rewrite length_app, Hlen; simpl; lia|].
        split; [rewrite feed_requests_app, Hreq; reflexivity|].
        split.
        { rewrite slept_app, Hsl. cbn [slept flat_map app].
          replace (S attempt - 1)%nat with attempt by lia.
          replace (S (S remaining) - 1)%nat with (S remaining) by lia.
          replace (S remaining - 1)%nat with remaining by lia.
          destruct attempt as [|attempt]; [lia|].
          cbn [seq map Nat.sub]. rewrite Nat.sub_0_r.
          repeat f_equal. lia. }
        intros _. specialize (Hlast ltac:(discriminate)).
        cbn [app]. destruct evs as [|e evs]; [discriminate Hlen|].
        exact Hlast.
Qed.

(** X1. [retryWithBackoff] on a feed that fails at every call, for any
    number of attempts and any base delay: it makes exactly [maxAttempts]
    requests and does nothing else but sleep [baseDelayMs * 2^j] after the
    request of rank [j], except after the last; it touches no file, and
    throws the error of the last request ([undefined] when [maxAttempts]
    is 0, the feed then not being called). *)
Theorem retry_exhausted_schedule config env st maxAttempts baseDelayMs err :
  (forall k, (k < maxAttempts)%nat ->
             feed env (minScore config) (feed_calls st + k)%nat = inl (err k)) ->
  exists st' evs,
    retryWithBackoff (fetchRSSFeed config) maxAttempts baseDelayMs env st
    = (inl (match maxAttempts with O => ThrownUndefined | S m => err m end), st') /\
    feed_calls st' = (feed_calls st + maxAttempts)%nat /\
    files st' = files st /\
    trace st' = trace st ++ evs /\
    length evs = (maxAttempts + (maxAttempts - 1))%nat /\
    feed_requests evs = repeat false maxAttempts /\
    slept evs = map (fun j => baseDelayMs * 2 ^ Z.of_nat j) (seq 0 (maxAttempts - 1)) /\
    (maxAttempts <> O -> List.last evs (Slept 0) = FeedRequested false).
Proof.
  intros Hfail.
  destruct (retry_fetch_all_fail config env maxAttempts baseDelayMs maxAttempts 1%nat
              ThrownUndefined st err)
    as (st' & evs & Heq & Hc & Hf & _ & Htr & Hlen & Hreq & Hsl & Hlast);
    [lia | lia | exact Hfail |].
  exists st', evs. unfold retryWithBackoff. auto 10.
Qed.

(** The loop on a feed that fails [k] times and then answers. *)
Lemma retry_fetch_first_answer config env maxAttempts baseDelayMs raw :
  forall k remaining attempt lastError st err,
    (1 <= attempt)%nat -> (attempt + remaining = maxAttempts + 1)%nat ->
    (k < remaining)%nat ->
    (forall j, (j < k)%nat ->
               feed env (minScore config) (feed_calls st + j)%nat = inl (err j)) ->
    feed env (minScore config) (feed_calls st + k)%nat = inr raw ->
    exists st' evs,
      retry_from (fetchRSSFeed config) maxAttempts baseDelayMs remaining attempt
                 lastError env st
      = (inr (sort_by_id raw), st') /\
      feed_calls st' = (feed_calls st + k + 1)%nat /\
      files st' = files st /\
      trace st' = trace st ++ evs /\
      feed_requests evs = repeat false k ++ [true] /\
      slept evs = map (fun j => baseDelayMs * 2 ^ Z.of_nat j) (seq (attempt - 1) k).
Proof.
  induction k as [|k IH]; intros remaining attempt lastError st err Ha Hsum Hk Hfail Hok.
  - destruct remaining as [|remaining]; [lia|].
    rewrite retry_from_step. rewrite Nat.add_0_r in Hok.
    rewrite (fetchRSSFeed_answered _ _ _ _ Hok).
    eexists _, [FeedRequested true].
    repeat split; auto. cbn [feed_calls]. lia.
  - destruct remaining as [|remaining]; [lia|].
    rewrite retry_from_step.
    pose proof (Hfail O ltac:(lia)) as H0. rewrite Nat.add_0_r in H0.
    rewrite (fetchRSSFeed_failed _ _ _ _ H0).
    assert ((attempt <? maxAttempts)%nat = true) as -> by (apply Nat.ltb_lt; lia).
    set (st2 := emit _ _).
    destruct (IH remaining (S attempt) (err O) st2 (fun j => err (S j)))
      as (st' & evs & Heq & Hc & Hf & Htr & Hreq & Hsl).
    + lia.
    + lia.
    + lia.
    + intros j Hj. unfold st2. cbn [emit feed_calls].
      replace (S (feed_calls st) + j)%nat with (feed_calls st + S j)%nat by lia.
      apply Hfail. lia.
    + unfold st2. cbn [emit feed_calls].
      replace (S (feed_calls st) + k)%nat with (feed_calls st + S k)%nat by lia.
      exact Hok.
    + exists st', ([FeedRequested false; Slept (baseDelayMs * 2 ^ (Z.of_nat attempt - 1))]
                   ++ evs).
      rewrite Heq. unfold st2 in *. cbn [emit feed_calls files trace] in *.
      split; [reflexivity|]. split; [lia|]. split; [assumption|].
      split; [rewrite Htr; now rewrite <- !app_assoc|].
      split; [rewrite feed_requests_app, Hreq; reflexivity|].
      rewrite slept_app, Hsl. cbn [slept flat_map app].
      replace (S attempt - 1)%nat with attempt by lia.
      destruct attempt as [|attempt]; [lia|].
      cbn [seq map Nat.sub]. rewrite Nat.sub_0_r.
      repeat f_equal. lia.
Qed.

(** X2. [retryWithBackoff] on a feed that answers at its call of rank [k]
    after failing before, with [k] below the number of attempts: it returns
    that answer sorted, having made [k + 1] requests and slept
    [baseDelayMs * 2^j] after each failed one; no request is made after
    the answer. *)
Theorem retry_returns_first_answer config env st maxAttempts baseDelayMs raw err k :
  (k < maxAttempts)%nat ->
  (forall j, (j < k)%nat ->
             feed env (minScore config) (feed_calls st + j)%nat = inl (err j)) ->
  feed env (minScore config) (feed_calls st + k)%nat = inr raw ->
  exists st' evs,
    retryWithBackoff (fetchRSSFeed config) maxAttempts baseDelayMs env st
    = (inr (sort_by_id raw), st') /\
    feed_calls st' = (feed_calls st + k + 1)%nat /\
    files st' = files st /\
    trace st' = trace st ++ evs /\
    feed_requests evs = repeat false k ++ [true] /\
    slept evs = map (fun j => baseDelayMs * 2 ^ Z.of_nat j) (seq 0 k).
Proof.
  intros Hk Hfail Hok. unfold retryWithBackoff.
  apply (retry_fetch_first_answer config env maxAttempts baseDelayMs raw k
           maxAttempts 1%nat ThrownUndefined st err); auto; lia.
Qed.

(** *** The feed, the state file, the credentials *)

(** X3. When the feed answers, [fetchRSSFeed] returns its stories sorted
    by id: the result is in ascending order of id, is a rearrangement of
    the answer (no story lost, none added), keeps the stories of one id in
    the order of the feed, and is the only list with these properties; one
    request is counted and no file is touched. *)
Theorem fetchRSSFeed_returns_stable_sort config env st raw :
  feed env (minScore config) (feed_calls st) = inr raw ->
  exists stories st',
    fetchRSSFeed config env st = (inr stories, st') /\
    StronglySorted id_le stories /\
    Permutation stories raw /\
    (forall k, List.filter (fun s => id s =? k) stories
               = List.filter (fun s => id s =? k) raw) /\
    (forall l, StronglySorted id_le l ->
               (forall k, List.filter (fun s => id s =? k) l
                          = List.filter (fun s => id s =? k) raw) ->
               l = stories) /\
    files st' = files st /\ feed_calls st' = S (feed_calls st).
Proof.
  intros Hfeed. rewrite (fetchRSSFeed_answered _ _ _ _ Hfeed).
  eexists _, _. split; [reflexivity|].
  split; [apply sort_by_id_sorted|]. split; [apply sort_by_id_perm|].
  split; [intros k; apply sort_by_id_stable|].
  split; [intros l Hs Hl; now apply sort_by_id_unique|].
  split; reflexivity.
Qed.



Lemma post_step_without_credentials config story env st :
  truthy (blueskyUsername config) && truthy (blueskyPassword config) = false ->
  retryWithBackoff (postToBluesky config story) 3 2000 env st
  = (inl (ThrownError "Bluesky credentials not configured"),
     emit (Slept 4000) (emit (Slept 2000) st)).
Proof.
  intros Hcred. unfold_retry. unfold postToBluesky, throw.
  assert (negb (truthy (blueskyUsername config)) || negb (truthy (blueskyPassword config))
          = true) as ->.
  { destruct (truthy (blueskyUsername config)), (truthy (blueskyPassword config));
      simpl in *; congruence. }
  reflexivity.
Qed.

Lemma loaded_cursor_state filepath env fs c :
  loaded_cursor filepath env fs = Some c ->
  exists state,
    loaded_state filepath env fs = inr state /\
    get_lastStoryId state = inr (Some (JNum c)).
Proof.
  unfold loaded_cursor, loaded_state.
  destruct (loadState filepath env (start fs)) as [[e|state] st]; [discriminate|].
  destruct (get_lastStoryId state) as [|[[| | n | | |]|]] eqn:Hget; try discriminate.
  intros [= ->]. eauto.
Qed.

Section Credentials.

Variable gt_coerced : Z -> json -> bool.

(** X15. Outside dry-run, when the user name or the password is not set
    (or is empty) and the selection is a post: the posting service is
    never called; the three attempts each stop at the test of the
    credentials, with sleeps of 2000 and 4000 ms between them; the run
    exits with 1 and leaves the files as they were. *)
Theorem missing_credentials_fail_without_posting config env fs c stories p :
  dryRun config = false ->
  truthy (blueskyUsername config) && truthy (blueskyPassword config) = false ->
  loaded_cursor (stateFile config) env fs = Some c ->
  fetched config env fs = inr stories ->
  select gt_coerced config (Some (JNum c)) (clock env) stories = PostAndAdvance p ->
  run gt_coerced config env fs
  = (1, emit (Slept 4000) (emit (Slept 2000) (after_fetch config env fs))) /\
  post_calls (snd (run gt_coerced config env fs)) = 0%nat /\
  post_calls_of (trace (snd (run gt_coerced config env fs))) = [] /\
  files (snd (run gt_coerced config env fs)) = fs.
Proof.
  intros Hdry Hcred Hcur Hfetch Hsel.
  destruct (loaded_cursor_state _ _ _ _ Hcur) as (state & Hstate & Hget).
  destruct (run_by_cases gt_coerced config env fs) as (state0 & Hstate0 & Hrun).
  rewrite Hstate in Hstate0. injection Hstate0 as <-.
  rewrite Hget, Hfetch, Hsel in Hrun. cbn [after_selection] in Hrun.
  rewrite Hdry in Hrun. unfold bind at 1 in Hrun.
  rewrite (post_step_without_credentials _ _ _ _ Hcred) in Hrun. cbn [exit_with] in Hrun.
  split; [exact Hrun|].
  destruct (run_summary gt_coerced config env fs) as (_ & _ & _ & Hlp & _ & _ & Hw).
  assert (post_calls (snd (run gt_coerced config env fs)) = 0%nat) as Hzero.
  { rewrite Hrun. cbn [snd emit post_calls]. unfold after_fetch.
    destruct (retryWithBackoff (fetchRSSFeed config) 3 1000 env (start fs))
      as [rf st1] eqn:Hretry.
    destruct (fetch_step_frame _ _ _ _ _ Hretry) as (_ & Hpc & _).
    cbn [snd]. now rewrite Hpc. }
  split; [exact Hzero|]. split.
  - rewrite Hzero in Hlp. now destruct (post_calls_of _).
  - destruct Hw as [[_ Hf]|(s0 & v & s' & _ & _ & H0 & _)]; [exact Hf|].
    rewrite Hrun in H0. discriminate.
Qed.

End Credentials.

(** *** Duplicate ids, whichever copy is kept *)

(** The freshness filter is the filter by [within_age_limit]. *)
Lemma freshStories_of_filter config now L :
  freshStories_of config now L = List.filter (within_age_limit config now) L.
Proof. reflexivity. Qed.

Lemma filter_andb {A} (f g : A -> bool) l :
  List.filter f (List.filter g l) = List.filter (fun x => g x && f x) l.
Proof.
  induction l as [|a l IH]; simpl; [reflexivity|].
  destruct (g a); simpl; [destruct (f a)|]; now rewrite IH.
Qed.

Lemma List_filter_sublist {A} (f : A -> bool) l : sublist (List.filter f l) l.
Proof.
  induction l as [|a l IH]; simpl; [constructor|].
  destruct (f a); now constructor.
Qed.

Lemma filter_map_id_NoDup (f : Story -> bool) L :
  List.NoDup (map id L) -> List.NoDup (map id (List.filter f L)).
Proof.
  induction L as [|a L IH]; simpl; [auto|].
  intros H. apply List.NoDup_cons_iff in H as [Hnot Hnd].
  destruct (f a); simpl; [|auto].
  apply List.NoDup_cons; [|auto].
  intros Hin. apply Hnot. apply in_map_iff in Hin as (y & Hy & Hin).
  apply filter_In in Hin as [Hin _]. apply in_map_iff. eauto.
Qed.

Lemma dedupe_keeping_In keep l s : In s (dedupe_keeping keep l) -> In s l.
Proof.
  induction l as [|x rest IH]; simpl; [auto|].
  destruct (keep x).
  - intros [->|Hin]; [now left|]. apply filter_In in Hin as [Hin _]. auto.
  - destruct (existsb _ rest); [auto|]. intros [->|Hin]; auto.
Qed.

Lemma dedupe_keeping_ids keep l s :
  In s l -> exists s', In s' (dedupe_keeping keep l) /\ id s' = id s.
Proof.
  revert s. induction l as [|x rest IH]; intros s; simpl; [intros []|].
  intros Hs. destruct (keep x).
  - destruct (Z.eq_dec (id s) (id x)) as [Heq|Hne].
    + exists x. split; [now left | auto].
    + destruct Hs as [->|Hs]; [contradiction|].
      destruct (IH _ Hs) as (s' & Hs' & Hid). exists s'. split; [|assumption].
      right. apply filter_In. split; [assumption|].
      apply negb_true_iff, Z.eqb_neq. lia.
  - destruct (existsb (fun y => id y =? id x) rest) eqn:Hex.
    + destruct Hs as [->|Hs]; [|auto].
      apply existsb_exists in Hex as (y & Hy & Hid).
      destruct (IH _ Hy) as (s' & Hs' & Hid'). exists s'. split; [assumption|].
      apply Z.eqb_eq in Hid. lia.
    + destruct Hs as [->|Hs]; [exists s; split; [now left | reflexivity]|].
      destruct (IH _ Hs) as (s' & Hs' & Hid). exists s'. split; [now right | assumption].
Qed.

Lemma dedupe_keeping_NoDup keep l : List.NoDup (map id (dedupe_keeping keep l)).
Proof.
  induction l as [|x rest IH]; simpl; [constructor|].
  destruct (keep x).
  - simpl. apply List.NoDup_cons; [|now apply filter_map_id_NoDup].
    intros Hin. apply in_map_iff in Hin as (y & Hy & Hin).
    apply filter_In in Hin as [_ Hin].
    apply negb_true_iff, Z.eqb_neq in Hin. lia.
  - destruct (existsb (fun y => id y =? id x) rest) eqn:Hex; [assumption|].
    simpl. apply List.NoDup_cons; [|assumption].
    intros Hin. apply in_map_iff in Hin as (y & Hy & Hin).
    apply dedupe_keeping_In in Hin.
    assert (existsb (fun y => id y =? id x) rest = true) as Hex'.
    { apply existsb_exists. exists y. split; [assumption|]. now apply Z.eqb_eq. }
    congruence.
Qed.

Lemma dedupe_keeping_sublist keep l : sublist (dedupe_keeping keep l) l.
Proof.
  induction l as [|x rest IH]; simpl; [constructor|].
  destruct (keep x).
  - constructor. etrans; [apply List_filter_sublist | exact IH].
  - destruct (existsb _ rest); now constructor.
Qed.

Lemma dedupe_keeping_removes keep l : duplicates_removed l (dedupe_keeping keep l).
Proof.
  split; [apply dedupe_keeping_sublist|]. split; [apply dedupe_keeping_NoDup|].
  intros s. apply dedupe_keeping_ids.
Qed.

(** Of an id that has an entry passing [keep], the entry kept is the first
    such entry. *)
Lemma dedupe_keeping_first keep l k p more :
  List.filter (fun y => (id y =? k) && keep y) l = p :: more ->
  List.filter (fun y => id y =? k) (dedupe_keeping keep l) = [p].
Proof.
  induction l as [|x rest IH]; simpl; [discriminate|].
  destruct (keep x) eqn:Hkeep.
  - rewrite andb_true_r. simpl. destruct (Z.eqb_spec (id x) k) as [Hk|Hk].
    + intros [= <- _]. f_equal.
      rewrite filter_andb. erewrite filter_ext; [apply filter_none|].
      intros y. simpl. destruct (Z.eqb_spec (id y) (id x)), (Z.eqb_spec (id y) k);
        simpl; auto; lia.
    + intros H. specialize (IH H).
      rewrite filter_andb.
      erewrite filter_ext; [rewrite <- filter_andb, IH|].
      2:{ intros y. simpl. apply andb_comm. }
      simpl.
      assert (id p = k) as Hp.
      { assert (In p (List.filter (fun y => id y =? k) (dedupe_keeping keep rest))) as Hin
            by (rewrite IH; now left).
        apply filter_In in Hin as [_ Hin]. now apply Z.eqb_eq. }
      destruct (Z.eqb_spec (id p) (id x)); [lia | reflexivity].
  - rewrite andb_false_r. intros H. specialize (IH H).
    destruct (existsb (fun y => id y =? id x) rest) eqn:Hex; [exact IH|].
    simpl. destruct (Z.eqb_spec (id x) k) as [Hk|Hk]; [|exact IH].
    exfalso.
    assert (In p (List.filter (fun y => (id y =? k) && keep y) rest)) as Hin
        by (rewrite H; now left).
    apply filter_In in Hin as [Hin Hp]. apply andb_true_iff in Hp as [Hp _].
    assert (existsb (fun y => id y =? id x) rest = true) as Hex'.
    { apply existsb_exists. exists p. split; [assumption|]. rewrite Hk. exact Hp. }
    congruence.
Qed.

(** [Math.max] depends on the set of its arguments only. *)
Lemma Math_max_ext a b : (forall x, In x a <-> In x b) -> Math_max a = Math_max b.
Proof.
  intros H. destruct a as [|x a], b as [|y b].
  - reflexivity.
  - destruct (proj2 (H y)); now left.
  - destruct (proj1 (H x)); now left.
  - destruct (Math_max_some x a) as [m Hm], (Math_max_some y b) as [m' Hm'].
    rewrite Hm, Hm'. f_equal.
    pose proof (Math_max_In _ _ Hm) as Hin. pose proof (Math_max_In _ _ Hm') as Hin'.
    apply H in Hin. apply H in Hin'.
    pose proof (Math_max_upper _ _ Hm' _ Hin). pose proof (Math_max_upper _ _ Hm _ Hin').
    lia.
Qed.

Section AnyCopy.

Variable gt_coerced : Z -> json -> bool.

Lemma newStories_of_In lastStoryId stories s :
  In s (newStories_of gt_coerced lastStoryId stories)
  <-> In s stories /\ gt_lastStoryId gt_coerced (id s) lastStoryId = true.
Proof. unfold newStories_of. apply filter_In. Qed.

Lemma fresh_new_In config lastStoryId now l s :
  In s (freshStories_of config now (newStories_of gt_coerced lastStoryId (sort_by_id l)))
  <-> In s l /\ gt_lastStoryId gt_coerced (id s) lastStoryId = true /\
      within_age_limit config now s = true.
Proof.
  rewrite freshStories_of_filter, filter_In, newStories_of_In, sort_by_id_In. tauto.
Qed.

(** The story at the head of the fresh new stories is, in the feed, the
    first entry of its id that passes the freshness filter. *)
Lemma fresh_new_head config lastStoryId now l p tl :
  freshStories_of config now (newStories_of gt_coerced lastStoryId (sort_by_id l)) = p :: tl ->
  exists more,
    List.filter (fun y => (id y =? id p) && within_age_limit config now y) l = p :: more.
Proof.
  intros H.
  assert (gt_lastStoryId gt_coerced (id p) lastStoryId = true) as Hnew.
  { assert (In p (freshStories_of config now
                    (newStories_of gt_coerced lastStoryId (sort_by_id l)))) as Hin
        by (rewrite H; now left).
    now apply fresh_new_In in Hin. }
  assert (List.filter (fun y => id y =? id p)
            (freshStories_of config now (newStories_of gt_coerced lastStoryId (sort_by_id l)))
          = List.filter (fun y => (id y =? id p) && within_age_limit config now y) l) as E.
  { rewrite freshStories_of_filter. unfold newStories_of. rewrite !filter_andb.
    transitivity (List.filter
                    (fun y => gt_lastStoryId gt_coerced (id y) lastStoryId
                              && within_age_limit config now y)
                    (List.filter (fun y => id y =? id p) (sort_by_id l))).
    - rewrite filter_andb. apply filter_ext. intros y.
      destruct (id y =? id p), (gt_lastStoryId gt_coerced (id y) lastStoryId),
        (within_age_limit config now y); reflexivity.
    - rewrite sort_by_id_stable, filter_andb. apply filter_ext. intros y.
      destruct (Z.eqb_spec (id y) (id p)) as [->|]; [|reflexivity].
      now rewrite Hnew. }
  rewrite H in E. simpl in E. rewrite Z.eqb_refl in E. eauto.
Qed.

(** The selection is the same, story included, once the duplicates are
    removed by [dedupe_keeping] for the freshness filter. *)
Lemma select_dedupe_keeping config lastStoryId now l :
  select gt_coerced config lastStoryId now
         (sort_by_id (dedupe_keeping (within_age_limit config now) l))
  = select gt_coerced config lastStoryId now (sort_by_id l).
Proof.
  set (l' := dedupe_keeping (within_age_limit config now) l).
  assert (forall s, In s l' -> In s l) as Hsub by apply dedupe_keeping_In.
  assert (forall s, In s l -> exists s', In s' l' /\ id s' = id s) as Hids
      by apply dedupe_keeping_ids.
  assert (forall s, In s (newStories_of gt_coerced lastStoryId (sort_by_id l)) ->
                    exists s', In s' (newStories_of gt_coerced lastStoryId (sort_by_id l'))
                               /\ id s' = id s) as Hnew.
  { intros s Hs. apply newStories_of_In in Hs as [Hs Hg]. apply (proj1 (sort_by_id_In _ _)) in Hs.
    destruct (Hids s Hs) as (s' & Hs' & Hid). exists s'. split; [|assumption].
    apply newStories_of_In. rewrite sort_by_id_In, Hid. auto. }
  assert (forall s, In s (newStories_of gt_coerced lastStoryId (sort_by_id l')) ->
                    In s (newStories_of gt_coerced lastStoryId (sort_by_id l))) as Hnew'.
  { intros s Hs. apply newStories_of_In in Hs as [Hs Hg]. apply (proj1 (sort_by_id_In _ _)) in Hs.
    apply newStories_of_In. rewrite sort_by_id_In. auto. }
  assert (forall p tl,
             freshStories_of config now
               (newStories_of gt_coerced lastStoryId (sort_by_id l)) = p :: tl ->
             List.filter (fun y => id y =? id p) l' = [p]) as Hkept.
  { intros p tl H. destruct (fresh_new_head _ _ _ _ _ _ H) as [more Hmore].
    apply (dedupe_keeping_first _ _ _ _ _ Hmore). }
  unfold select.
  destruct (freshStories_of config now (newStories_of gt_coerced lastStoryId (sort_by_id l)))
    as [|p tl] eqn:HF;
    destruct (freshStories_of config now (newStories_of gt_coerced lastStoryId (sort_by_id l')))
    as [|q tl'] eqn:HF'.
  - destruct (newStories_of gt_coerced lastStoryId (sort_by_id l)) as [|n news] eqn:HN;
      destruct (newStories_of gt_coerced lastStoryId (sort_by_id l')) as [|n' news'] eqn:HN'.
    + reflexivity.
    + destruct (Hnew' n'); now left.
    + destruct (Hnew n) as (s' & [] & _). now left.
    + f_equal. apply Math_max_ext. intros x. rewrite !in_map_iff. split.
      * intros (s & Hid & Hs). exists s. auto.
      * intros (s & Hid & Hs). destruct (Hnew s Hs) as (s' & Hs' & Hid').
        exists s'. split; [lia | assumption].
  - exfalso.
    assert (In q (freshStories_of config now
                    (newStories_of gt_coerced lastStoryId (sort_by_id l)))) as Hin.
    { apply fresh_new_In.
      assert (In q (freshStories_of config now
                      (newStories_of gt_coerced lastStoryId (sort_by_id l')))) as Hq
          by (rewrite HF'; now left).
      apply fresh_new_In in Hq as (Hq & ? & ?). auto. }
    rewrite HF in Hin. destruct Hin.
  - exfalso.
    assert (In p (freshStories_of config now
                    (newStories_of gt_coerced lastStoryId (sort_by_id l')))) as Hin.
    { assert (In p (freshStories_of config now
                      (newStories_of gt_coerced lastStoryId (sort_by_id l)))) as Hp
          by (rewrite HF; now left).
      apply fresh_new_In in Hp as (_ & ? & ?).
      apply fresh_new_In. split; [|auto].
      assert (In p (List.filter (fun y => id y =? id p) l')) as Hin
          by (rewrite (Hkept p tl eq_refl); now left).
      now apply filter_In in Hin. }
    rewrite HF' in Hin. destruct Hin.
  - assert (In p (freshStories_of config now
                    (newStories_of gt_coerced lastStoryId (sort_by_id l)))) as Hp
        by (rewrite HF; now left).
    assert (In q (freshStories_of config now
                    (newStories_of gt_coerced lastStoryId (sort_by_id l')))) as Hq
        by (rewrite HF'; now left).
    pose proof (Hkept p tl eq_refl) as Hone.
    assert (In p l') as Hpl'.
    { assert (In p (List.filter (fun y => id y =? id p) l')) as Hin
          by (rewrite Hone; now left).
      now apply filter_In in Hin. }
    apply fresh_new_In in Hp as (Hpl & Hpg & Hph).
    apply fresh_new_In in Hq as (Hql' & Hqg & Hqh).
    assert (StronglySorted id_le (p :: tl)) as Hs.
    { rewrite <- HF. unfold freshStories_of, newStories_of.
      do 2 apply filter_sorted. apply sort_by_id_sorted. }
    assert (StronglySorted id_le (q :: tl')) as Hs'.
    { rewrite <- HF'. unfold freshStories_of, newStories_of.
      do 2 apply filter_sorted. apply sort_by_id_sorted. }
    assert (id p <= id q) as Hpq.
    { apply (sorted_head_least _ _ Hs). rewrite <- HF. apply fresh_new_In. auto. }
    assert (id q <= id p) as Hqp.
    { apply (sorted_head_least _ _ Hs'). rewrite <- HF'. apply fresh_new_In. auto. }
    assert (In q (List.filter (fun y => id y =? id p) l')) as Hin.
    { apply filter_In. split; [assumption|]. apply Z.eqb_eq. lia. }
    rewrite Hone in Hin. destruct Hin as [->|[]].
    destruct (newStories_of gt_coerced lastStoryId (sort_by_id l)) as [|n news] eqn:HN;
      [discriminate HF|].
    destruct (newStories_of gt_coerced lastStoryId (sort_by_id l')) as [|n' news'] eqn:HN';
      [discriminate HF'|].
    reflexivity.
Qed.

End AnyCopy.

Lemma sublist_In {A} (l' l : list A) s : sublist l' l -> In s l' -> In s l.
Proof.
  induction 1 as [|x l1 l2 _ IH|x l1 l2 _ IH]; simpl; [auto| |auto].
  intros [->|Hin]; auto.
Qed.

Section AnyCopyRun.

Variable gt_coerced : Z -> json -> bool.

(** What follows the selection does not ask the feed. *)
Lemma after_selection_answering config state sel env stories st :
  after_selection config state sel (answering env stories) st
  = after_selection config state sel env st.
Proof.
  destruct sel as [|latestId|story]; cbn [after_selection]; try reflexivity.
  destruct (dryRun config); [reflexivity|].
  unfold bind at 1 3.
  assert (retryWithBackoff (postToBluesky config story) 3 2000 (answering env stories) st
          = retryWithBackoff (postToBluesky config story) 3 2000 env st) as ->;
    [|reflexivity].
  unfold retryWithBackoff, retry_from, try_catch, bind, sleep, ret, throw, emit,
    postToBluesky.
  destruct (negb (truthy (blueskyUsername config)) || negb (truthy (blueskyPassword config)));
    reflexivity.
Qed.

(** A run on the feed with the duplicates so removed is the same run. *)
Lemma run_dedupe_keeping config env fs l :
  run gt_coerced config
      (answering env (dedupe_keeping (within_age_limit config (clock env)) l)) fs
  = run gt_coerced config (answering env l) fs.
Proof.
  set (l' := dedupe_keeping (within_age_limit config (clock env)) l).
  destruct (run_by_cases gt_coerced config (answering env l') fs) as (state' & Hst' & ->).
  destruct (run_by_cases gt_coerced config (answering env l) fs) as (state & Hst & ->).
  unfold loaded_state in Hst, Hst'. rewrite loadState_eq in Hst, Hst'.
  cbn [fst] in Hst, Hst'. rewrite Hst in Hst'. injection Hst' as <-.
  destruct (get_lastStoryId state) as [e|lastStoryId]; [reflexivity|].
  change (fetched config (answering env l') fs) with (@inr thrown _ (sort_by_id l')).
  change (fetched config (answering env l) fs) with (@inr thrown _ (sort_by_id l)).
  change (clock (answering env l')) with (clock env).
  change (clock (answering env l)) with (clock env).
  change (after_fetch config (answering env l') fs)
    with (after_fetch config (answering env l) fs).
  unfold l'. rewrite select_dedupe_keeping, !after_selection_answering.
  reflexivity.
Qed.

Section Decisions.

Variable config : Config.
Variable c now : Z.

(** The decision is fixed by which ids are new, and which of them have
    an entry within the age limit. *)
Lemma decision_agree L L' :
  StronglySorted id_le L -> StronglySorted id_le L' ->
  (has_new c L <-> has_new c L') ->
  (has_fresh config c now L <-> has_fresh config c now L') ->
  (forall m m', greatest_new c L m -> greatest_new c L' m' -> m = m') ->
  (forall i i', least_fresh config c now L i -> least_fresh config c now L' i' -> i = i') ->
  decision_of (select gt_coerced config (Some (JNum c)) now L)
  = decision_of (select gt_coerced config (Some (JNum c)) now L').
Proof.
  intros Hs Hs' Hnew Hfresh Hmax Hmin.
  assert (forall M m, greatest_new c M m -> has_new c M) as Hgn.
  { intros M m [(s & ? & ? & _) _]. now exists s. }
  assert (forall M i, least_fresh config c now M i -> has_fresh config c now M) as Hlf.
  { intros M i [(s & ? & ? & ? & _) _]. now exists s. }
  assert (forall M, has_fresh config c now M -> has_new c M) as Hfn.
  { intros M (s & ? & ? & _). now exists s. }
  destruct (decision_cases gt_coerced config c now L Hs)
    as [[-> Hn]|[(m & -> & Hm & Hf)|(i & -> & Hi)]];
    destruct (decision_cases gt_coerced config c now L' Hs')
    as [[-> Hn']|[(m' & -> & Hm' & Hf')|(i' & -> & Hi')]].
  - reflexivity.
  - exfalso. apply Hn, Hnew. eauto.
  - exfalso. apply Hn, Hnew. eauto.
  - exfalso. apply Hn', Hnew. eauto.
  - now rewrite (Hmax m m').
  - exfalso. apply Hf, Hfresh. eauto.
  - exfalso. apply Hn', Hnew. eauto.
  - exfalso. apply Hf', Hfresh. eauto.
  - now rewrite (Hmin i i').
Qed.

(** Removing duplicates in any way that keeps, of each id that has an
    entry within the age limit, such an entry, leaves the decision as it
    is. *)
Lemma decision_duplicates_removed l l' :
  duplicates_removed l l' ->
  (forall s, In s l -> is_fresh config now s ->
             exists s', In s' l' /\ id s' = id s /\ is_fresh config now s') ->
  decision_of (select gt_coerced config (Some (JNum c)) now (sort_by_id l'))
  = decision_of (select gt_coerced config (Some (JNum c)) now (sort_by_id l)).
Proof.
  intros (Hsub & _ & Hids) Hkeep.
  assert (forall s, In s (sort_by_id l') -> In s (sort_by_id l)) as Hin.
  { intros s Hs. apply sort_by_id_In. apply (sublist_In _ _ _ Hsub).
    now apply sort_by_id_In. }
  assert (forall s, In s (sort_by_id l) ->
                    exists s', In s' (sort_by_id l') /\ id s' = id s) as Hid.
  { intros s Hs. apply (proj1 (sort_by_id_In _ _)) in Hs.
    destruct (Hids s Hs) as (s' & Hs' & ?). exists s'. now rewrite sort_by_id_In. }
  assert (forall s, In s (sort_by_id l) -> is_fresh config now s ->
                    exists s', In s' (sort_by_id l') /\ id s' = id s
                               /\ is_fresh config now s') as Hfr.
  { intros s Hs Hf. apply (proj1 (sort_by_id_In _ _)) in Hs.
    destruct (Hkeep s Hs Hf) as (s' & Hs' & ? & ?). exists s'. now rewrite sort_by_id_In. }
  apply decision_agree; try apply sort_by_id_sorted; unfold is_new in *.
  - split; intros (s & Hs & Hn).
    + exists s. auto.
    + destruct (Hid s Hs) as (s' & Hs' & Heq). exists s'. unfold is_new in *.
      split; [assumption | lia].
  - split; intros (s & Hs & Hn & Hf).
    + exists s. auto.
    + destruct (Hfr s Hs Hf) as (s' & Hs' & Heq & Hf'). exists s'. unfold is_new in *.
      repeat split; [assumption | lia | assumption].
  - intros m' m [(s' & Hs' & Hn' & Hm') Hup'] [(s & Hs & Hn & Hm) Hup].
    pose proof (Hup _ (Hin _ Hs') Hn').
    destruct (Hid s Hs) as (t & Ht & Heq). unfold is_new in *.
    pose proof (Hup' t Ht ltac:(unfold is_new; lia)). lia.
  - intros i' i [(s' & Hs' & Hn' & Hf' & Hi') Hlow'] [(s & Hs & Hn & Hf & Hi) Hlow].
    pose proof (Hlow _ (Hin _ Hs') Hn' Hf').
    destruct (Hfr s Hs Hf) as (t & Ht & Heq & Hft). unfold is_new in *.
    pose proof (Hlow' t Ht ltac:(unfold is_new; lia) Hft). lia.
Qed.

End Decisions.

(** C8. Duplicate ids collapse to one item for the selection.  For every
    feed answer [l] there is a list [l'] with the duplicate-id entries
    removed (entries of [l] in their order, one per id, every id kept) on
    which the selection is the same for every cursor -- same outcome, same
    story -- and on which the whole run is the same: same exit code, same
    calls, same writes.  And the decision (whether to post, the id chosen,
    the new cursor) is the same on every list with the duplicate-id
    entries removed that keeps, for each id that has an entry within the
    age limit, such an entry; the program has no deduplication step of its
    own, it tests each entry with its own [publishedAt]. *)
Theorem duplicates_collapse_for_selection config env fs l :
  (exists l',
      duplicates_removed l l' /\
      (forall lastStoryId,
          select gt_coerced config lastStoryId (clock env) (sort_by_id l')
          = select gt_coerced config lastStoryId (clock env) (sort_by_id l)) /\
      run gt_coerced config (answering env l') fs
      = run gt_coerced config (answering env l) fs) /\
  (forall c l',
      duplicates_removed l l' ->
      (forall s, In s l -> is_fresh config (clock env) s ->
                 exists s', In s' l' /\ id s' = id s /\ is_fresh config (clock env) s') ->
      decision_of (select gt_coerced config (Some (JNum c)) (clock env) (sort_by_id l'))
      = decision_of (select gt_coerced config (Some (JNum c)) (clock env) (sort_by_id l))).
Proof.
  split.
  - exists (dedupe_keeping (within_age_limit config (clock env)) l).
    split; [apply dedupe_keeping_removes|].
    split; [intros; apply select_dedupe_keeping | apply run_dedupe_keeping].
  - intros c l'. apply decision_duplicates_removed.
Qed.

End AnyCopyRun.

(** On three entries of one id of which the second alone is within the
    age limit, that entry is the one kept, and the story is posted as it
    is on the feed as given. *)
Example dedupe_keeping_fresh_between_stale :
  dedupe_keeping (within_age_limit (demo_config false) demo_now) fresh_between_stale
  = [demo_story 101 1] /\
  decision_of (select no_coercion (demo_config false) (Some (JNum 100)) demo_now
                      (sort_by_id fresh_between_stale)) = DPost 101 /\
  decision_of (select no_coercion (demo_config false) (Some (JNum 100)) demo_now
                      (sort_by_id [demo_story 101 1])) = DPost 101.
Proof. repeat split; reflexivity. Qed.

(** *** The further properties on concrete runs *)

Lemma retry_exhausted_schedule_witness :
  exists st' evs,
    retryWithBackoff (fetchRSSFeed (demo_config false)) 3 1000 demo_env_feed_down (start ∅)
    = (inl (feed_error 2), st') /\
    trace st' = evs /\
    feed_requests evs = [false; false; false] /\
    slept evs = [1000; 2000].
Proof.
  destruct (retry_exhausted_schedule (demo_config false) demo_env_feed_down (start ∅)
              3 1000 feed_error)
    as (st' & evs & Heq & _ & _ & Htr & _ & Hreq & Hsl & _).
  - intros k _. reflexivity.
  - exists st', evs. auto.
Defined.

Lemma retry_returns_first_answer_witness :
  exists st' evs,
    retryWithBackoff (fetchRSSFeed (demo_config false)) 3 1000
                     (demo_env_feed_up_at 1 fresh_three) (start ∅)
    = (inr [demo_story 102 2; demo_story 105 1; demo_story 108 1], st') /\
    trace st' = evs /\
    feed_requests evs = [false; true] /\
    slept evs = [1000].
Proof.
  destruct (retry_returns_first_answer (demo_config false)
              (demo_env_feed_up_at 1 fresh_three) (start ∅) 3 1000 fresh_three
              feed_error 1)
    as (st' & evs & Heq & _ & _ & Htr & Hreq & Hsl).
  - lia.
  - intros j Hj. assert (j = O) as -> by lia. reflexivity.
  - reflexivity.
  - exists st', evs. auto.
Defined.

Lemma fetchRSSFeed_returns_stable_sort_witness :
  exists stories st',
    fetchRSSFeed (demo_config false) (demo_env fresh_three posting_up) (start ∅)
    = (inr stories, st') /\
    StronglySorted id_le stories /\ Permutation stories fresh_three.
Proof.
  destruct (fetchRSSFeed_returns_stable_sort (demo_config false)
              (demo_env fresh_three posting_up) (start ∅) fresh_three eq_refl)
    as (stories & st' & Heq & Hsorted & Hperm & _).
  exists stories, st'. auto.
Defined.

Lemma failed_run_leaves_files_untouched_witness :
  fst (run no_coercion (demo_config false) demo_env_feed_down (demo_files 100)) = 1 /\
  files (snd (run no_coercion (demo_config false) demo_env_feed_down (demo_files 100)))
  = demo_files 100.
Proof.
  split; [reflexivity|].
  apply (failed_run_leaves_files_untouched no_coercion (demo_config false)
           demo_env_feed_down (demo_files 100) eq_refl).
Defined.

Lemma dry_run_never_calls_posting_service_witness :
  post_calls (snd (run no_coercion (demo_config true) (demo_env fresh_three posting_up)
                       (demo_files 100))) = 0%nat /\
  posted (trace (snd (run no_coercion (demo_config true) (demo_env fresh_three posting_up)
                          (demo_files 100)))) = [].
Proof.
  destruct (dry_run_never_calls_posting_service no_coercion (demo_config true)
              (demo_env fresh_three posting_up) (demo_files 100) eq_refl)
    as (Hcalls & _ & Hposted).
  auto.
Defined.

Lemma no_story_posted_twice_witness :
  map id (posted_in_sequence no_coercion drip_runs (demo_files 100)) = [102; 105; 108] /\
  StronglySorted Z.lt (map id (posted_in_sequence no_coercion drip_runs (demo_files 100))).
Proof.
  split; [reflexivity|].
  apply (no_story_posted_twice no_coercion "last-processed.json"
           (demo_env [] posting_up) drip_runs (demo_files 100) 100).
  - repeat constructor.
  - reflexivity.
Defined.

Lemma save_keeps_other_properties_witness :
  files (snd (run no_coercion (demo_config false) (demo_env stale_two posting_up)
                  (demo_files_with_note 100)))
  = demo_files_with_note 102 /\
  exists fields',
    JSONText (JObj [("note", JStr "kept"); ("lastStoryId", JNum 102)])
    = JSONText (JObj fields') /\
    assoc_get "note" fields' = Some (JStr "kept").
Proof.
  split; [reflexivity|].
  destruct (save_keeps_other_properties no_coercion (demo_config false)
              (demo_env stale_two posting_up) (demo_files_with_note 100)
              [("note", JStr "kept"); ("lastStoryId", JNum 100)] eq_refl
              "last-processed.json"
              (JSONText (JObj [("note", JStr "kept"); ("lastStoryId", JNum 102)])))
    as (fields' & Hcontent & _ & _ & Hkept).
  - right. now left.
  - exists fields'. split; [exact Hcontent|].
    rewrite (Hkept "note"); [reflexivity | discriminate].
Defined.

Lemma state_without_cursor_never_posts_witness :
  run no_coercion (demo_config false) (demo_env fresh_three posting_up)
      {[ "last-processed.json" := JSONText (JObj [("note", JStr "kept")]) ]}
  = (0, after_fetch (demo_config false) (demo_env fresh_three posting_up)
                    {[ "last-processed.json" := JSONText (JObj [("note", JStr "kept")]) ]}).
Proof.
  destruct (state_without_cursor_never_posts no_coercion (demo_config false)
              (demo_env fresh_three posting_up)
              {[ "last-processed.json" := JSONText (JObj [("note", JStr "kept")]) ]}
              (JObj [("note", JStr "kept")]))
    as (Hrun & _).
  - vm_compute. reflexivity.
  - reflexivity.
  - exact Hrun.
Defined.

Lemma null_state_stops_run_witness :
  run no_coercion (demo_config false) (demo_env fresh_three posting_up)
      {[ "last-processed.json" := JSONText JNull ]}
  = (1, start {[ "last-processed.json" := JSONText JNull ]}).
Proof.
  apply (null_state_stops_run no_coercion (demo_config false)
           (demo_env fresh_three posting_up)
           {[ "last-processed.json" := JSONText JNull ]}).
  vm_compute. reflexivity.
Defined.

Lemma readme_main_agrees_outside_dry_run_witness :
  readme_main no_coercion (demo_config false) (demo_env fresh_three posting_up)
              (start (demo_files 100))
  = main no_coercion (demo_config false) (demo_env fresh_three posting_up)
         (start (demo_files 100)).
Proof.
  apply (readme_main_agrees_outside_dry_run no_coercion (demo_config false)
           (demo_env fresh_three posting_up) (start (demo_files 100)) eq_refl).
Defined.

Lemma readme_dry_run_passes_story_over_witness :
  post_calls_of (trace (snd (readme_main no_coercion (demo_config true)
                                         (demo_env fresh_three posting_up)
                                         (start (demo_files 100))))) = [] /\
  loaded_cursor "last-processed.json" (demo_env fresh_three posting_up)
    (files (snd (readme_main no_coercion (demo_config true)
                             (demo_env fresh_three posting_up)
                             (start (demo_files 100)))))
  = Some 102.
Proof.
  destruct (readme_dry_run_passes_story_over no_coercion (demo_config true)
              (demo_env fresh_three posting_up) (demo_files 100) 100
              (sort_by_id fresh_three) (demo_story 102 2)
              eq_refl eq_refl eq_refl eq_refl)
    as (_ & Hcalls & _ & Hcur & _).
  auto.
Defined.

Lemma missing_credentials_fail_without_posting_witness :
  fst (run no_coercion demo_config_no_user (demo_env fresh_three posting_up)
           (demo_files 100)) = 1 /\
  slept (trace (snd (run no_coercion demo_config_no_user
                         (demo_env fresh_three posting_up) (demo_files 100))))
  = [2000; 4000] /\
  post_calls (snd (run no_coercion demo_config_no_user (demo_env fresh_three posting_up)
                       (demo_files 100))) = 0%nat.
Proof.
  destruct (missing_credentials_fail_without_posting no_coercion demo_config_no_user
              (demo_env fresh_three posting_up) (demo_files 100) 100
              (sort_by_id fresh_three) (demo_story 102 2)
              eq_refl eq_refl eq_refl eq_refl eq_refl)
    as (Hrun & Hcalls & _ & _).
  rewrite Hrun. split; [reflexivity|]. split; [reflexivity|].
  rewrite Hrun in Hcalls. exact Hcalls.
Defined.
